(** * Blackout_ESPT: the frequency / phase-angle / RoCoF derivation pipeline

    A shallow embedding of [main.py] (and of its RoCoF-less twin
    [BO_2025/main.py]): the module-level derivation pipeline that loads
    the measurement table, integrates the phase angle of every station,
    differentiates its frequency, rebases the phases on the reference
    station, and the [update_graph] callback that projects the table.

    Numbers.  A binary64 cell is modelled by [float]: an exact rational
    ([Fin]), the missing marker ([NaN]) or an infinity ([Inf], which exact
    arithmetic only produces by a division by zero).  Rounding, overflow
    and the sign of zero are idealised away; everything else (propagation
    of [NaN], what a zero divisor gives) follows IEEE 754.  Equalities
    between computed cells are stated with [feq], equality of the numbers
    they hold.

    Tables.  A [DataFrame] is a list of columns by header; the columns of
    a table have the same number of rows, so element-wise operations are
    taken over aligned series.  Timestamps are [datetime64[ns]] values:
    integers counting nanoseconds, every row having one.

    State.  The module's globals ([df], [frequency_columns],
    [phase_angle_cols], [reference_station]) are threaded through a state
    and exception monad: the module body writes them, the callback reads
    them, and they survive an exception. *)

From Stdlib Require Import List String Ascii Bool Arith ZArith QArith Lia Lqa.
Import ListNotations.

Open Scope string_scope.
Open Scope Q_scope.

(** ** Floating-point cells *)

Inductive float : Type :=
| NaN
| Fin (q : Q)
| Inf (negative : bool).

(** [pd.isna] on a float cell: only [NaN] is missing. *)
Definition isna (x : float) : bool :=
  match x with NaN => true | _ => false end.

Definition is_finite (x : float) : bool :=
  match x with Fin _ => true | _ => false end.

Definition Qis_zero (q : Q) : bool := Qeq_bool q 0.
Definition Qis_neg (q : Q) : bool := negb (Qle_bool 0 q).

Definition fadd (x y : float) : float :=
  match x, y with
  | NaN, _ | _, NaN => NaN
  | Fin a, Fin b => Fin (a + b)
  | Fin _, Inf s | Inf s, Fin _ => Inf s
  | Inf s, Inf t => if Bool.eqb s t then Inf s else NaN
  end.

Definition fsub (x y : float) : float :=
  match x, y with
  | NaN, _ | _, NaN => NaN
  | Fin a, Fin b => Fin (a - b)
  | Fin _, Inf s => Inf (negb s)
  | Inf s, Fin _ => Inf s
  | Inf s, Inf t => if Bool.eqb s t then NaN else Inf s
  end.

Definition fmul (x y : float) : float :=
  match x, y with
  | NaN, _ | _, NaN => NaN
  | Fin a, Fin b => Fin (a * b)
  | Fin a, Inf s | Inf s, Fin a =>
      if Qis_zero a then NaN else Inf (xorb s (Qis_neg a))
  | Inf s, Inf t => Inf (xorb s t)
  end.

(** Division.  A zero divisor gives [NaN] for [0/0] and an infinity with
    the sign of the numerator otherwise (the divisors of this program are
    elapsed times, whose zero is [+0.0]). *)
Definition fdiv (x y : float) : float :=
  match x, y with
  | NaN, _ | _, NaN => NaN
  | Fin a, Fin b =>
      if Qis_zero b then (if Qis_zero a then NaN else Inf (Qis_neg a))
      else Fin (a / b)
  | Fin _, Inf _ => Fin 0
  | Inf s, Fin b => Inf (xorb s (Qis_neg b))
  | Inf _, Inf _ => NaN
  end.

(** Equality of cells up to the representation of a rational
    ([1#2] and [2#4] are the same number). *)
Definition feq (x y : float) : Prop :=
  match x, y with
  | NaN, NaN => True
  | Fin a, Fin b => a == b
  | Inf s, Inf t => s = t
  | _, _ => False
  end.

Infix "=f=" := feq (at level 70, no associativity).

(** Element-wise equality of two series. *)
Definition series_eq (xs ys : list float) : Prop := Forall2 feq xs ys.

(** A measured value as the loader reads it: a finite decimal, or an
    empty field. *)
Definition of_raw (x : option Q) : float :=
  match x with Some q => Fin q | None => NaN end.

(** ** Strings: the header conventions *)

(** Python's [pat in s]. *)
Fixpoint str_in (pat s : string) : bool :=
  prefix pat s ||
  match s with
  | EmptyString => false
  | String _ s' => str_in pat s'
  end.

(** Python's [s.replace(old, new)] for a non-empty [old]: occurrences are
    found left to right and do not overlap.  [skip] counts the characters
    of a matched occurrence still to be dropped. *)
Fixpoint replace_from (old new : string) (skip : nat) (s : string) : string :=
  match s with
  | EmptyString => EmptyString
  | String c s' =>
      match skip with
      | S k => replace_from old new k s'
      | O =>
          if prefix old s
          then new ++ replace_from old new (String.length old - 1) s'
          else String c (replace_from old new 0 s')
      end
  end.

Definition replace (old new s : string) : string := replace_from old new 0 s.

(** ** Series operations of pandas and numpy *)

(** Element-wise binary operation of two aligned series. *)
Fixpoint zip_with {A B C} (f : A -> B -> C) (xs : list A) (ys : list B) : list C :=
  match xs, ys with
  | x :: xs', y :: ys' => f x y :: zip_with f xs' ys'
  | _, _ => []
  end.

(** Distance to, and value of, the first non-missing cell. *)
Fixpoint next_valid (l : list float) : option (nat * float) :=
  match l with
  | [] => None
  | x :: l' =>
      if isna x then
        match next_valid l' with
        | Some (d, v) => Some (S d, v)
        | None => None
        end
      else Some (O, x)
  end.

(** [np.interp] between the valid neighbours [(xa, a)] and [(xa + n, b)]
    at abscissa [xa + k]: [slope * (x - xa) + a].  (For infinite
    neighbours numpy retries from the right one; measured cells are
    finite.) *)
Definition lerp (a b : float) (k n : nat) : float :=
  fadd (fmul (fdiv (fsub b a) (Fin (inject_Z (Z.of_nat n))))
             (Fin (inject_Z (Z.of_nat k))))
       a.

(** [Series.interpolate()] with its defaults (linear over the positions,
    forward): [prev] is the last valid value, [k] positions back.  A gap
    with a valid value on both sides is interpolated; a gap that runs to
    the end repeats the last valid value. *)
Fixpoint interpolate_from (prev : float) (k : nat) (l : list float) : list float :=
  match l with
  | [] => []
  | x :: l' =>
      if isna x then
        (match next_valid l' with
         | Some (d, v) => lerp prev v k (k + S d)
         | None => prev
         end) :: interpolate_from prev (S k) l'
      else x :: interpolate_from x 1 l'
  end.

(** Leading gaps are left alone; a series with no valid value is returned
    as it is. *)
Fixpoint interpolate (l : list float) : list float :=
  match l with
  | [] => []
  | x :: l' =>
      if isna x then x :: interpolate l'
      else x :: interpolate_from x 1 l'
  end.

(** [Series.bfill()]: a missing cell takes the next valid value. *)
Fixpoint bfill (l : list float) : list float :=
  match l with
  | [] => []
  | x :: l' =>
      let r := bfill l' in
      (if isna x then hd NaN r else x) :: r
  end.

(** [Series.ffill()]: a missing cell takes the last valid value. *)
Fixpoint ffill_from (prev : float) (l : list float) : list float :=
  match l with
  | [] => []
  | x :: l' =>
      if isna x then prev :: ffill_from prev l'
      else x :: ffill_from x l'
  end.

Definition ffill (l : list float) : list float := ffill_from NaN l.

(** The gap-filling chain of the source: [.interpolate().bfill().ffill()]. *)
Definition gap_fill (l : list float) : list float :=
  ffill (bfill (interpolate l)).

(** Adjacent differences [x_i - x_(i-1)], the first one against [prev]. *)
Fixpoint diff_from (prev : float) (l : list float) : list float :=
  match l with
  | [] => []
  | x :: l' => fsub x prev :: diff_from x l'
  end.

(** [Series.diff()]: the first cell has no predecessor and is missing. *)
Definition series_diff (l : list float) : list float :=
  match l with
  | [] => []
  | x :: l' => NaN :: diff_from x l'
  end.

(** [np.diff(a, prepend=p)]. *)
Definition np_diff_prepend (p : float) (l : list float) : list float :=
  diff_from p l.

(** [np.cumsum]: running sums, left to right. *)
Fixpoint cumsum_from (acc : float) (l : list float) : list float :=
  match l with
  | [] => []
  | x :: l' => let s := fadd acc x in s :: cumsum_from s l'
  end.

Definition np_cumsum (l : list float) : list float :=
  match l with
  | [] => []
  | x :: l' => x :: cumsum_from x l'
  end.

(** Seconds in a [Timedelta] of [ns] nanoseconds. *)
Definition total_seconds (ns : Z) : Q := ns # 1000000000.

(** [np.pi]: the binary64 nearest to pi, [0x400921FB54442D18]. *)
Definition np_pi : Q := 884279719003555 # 281474976710656.

(** ** The table and the interpreter state *)

(** A column of the [DataFrame]: datetimes or floats. *)
Inductive column : Type :=
| Stamps (ts : list Z)
| Floats (xs : list float).

(** The [DataFrame]: columns by header, in header order. *)
Definition frame : Type := list (string * column).

Fixpoint get_col (name : string) (d : frame) : option column :=
  match d with
  | [] => None
  | (k, c) :: d' => if String.eqb k name then Some c else get_col name d'
  end.

(** [df[name] = c]: replaces the column of that header, or appends one. *)
Fixpoint set_col (name : string) (c : column) (d : frame) : frame :=
  match d with
  | [] => [(name, c)]
  | (k, x) :: d' =>
      if String.eqb k name then (k, c) :: d' else (k, x) :: set_col name c d'
  end.

(** [df.columns]. *)
Definition headers (d : frame) : list string := map fst d.

(** What the input file holds.  A text column is abstracted by the
    instants its fields denote; a numeric field is a finite decimal or
    empty. *)
Inductive raw_column : Type :=
| Instants (ts : list Z)
| Numbers (xs : list (option Q)).

Inductive file : Type :=
| Absent
| Unparsable
| Csv (table : list (string * raw_column)).

Inductive exn : Type :=
| FileNotFoundError
| ParserError
| KeyError (key : string)
| IndexError
| TypeError
| ValueError
| AttributeError
| UnboundLocalError (name : string).

(** The module's global variables.  They outlive a run of the module body
    and are what the callbacks read. *)
Record globals : Type := mkGlobals {
  df : frame;
  frequency_columns : list string;
  phase_angle_cols : list string;
  reference_station : string
}.

(** Computations that may raise and that read and write the globals; the
    globals survive an exception. *)
Definition M (A : Type) : Type := globals -> (exn + A) * globals.

Definition ret {A} (a : A) : M A := fun g => (inr a, g).

Definition raise {A} (e : exn) : M A := fun g => (inl e, g).

Definition bind {A B} (m : M A) (k : A -> M B) : M B :=
  fun g =>
    match m g with
    | (inl e, g') => (inl e, g')
    | (inr a, g') => k a g'
    end.

Notation "x <- m ;; k" := (bind m (fun x => k))
  (at level 61, m at next level, right associativity).
Notation "m ;; k" := (bind m (fun _ => k))
  (at level 61, right associativity).

(** Pure code that may raise. *)
Definition try_bind {A B} (m : exn + A) (k : A -> exn + B) : exn + B :=
  match m with
  | inl e => inl e
  | inr a => k a
  end.

Notation "x <~ m ;; k" := (try_bind m (fun x => k))
  (at level 61, m at next level, right associativity).

Definition lift {A} (m : exn + A) : M A := fun g => (m, g).

Definition get_df : M frame := fun g => (inr (df g), g).

(** The globals with the table replaced. *)
Definition with_df (d : frame) (g : globals) : globals :=
  mkGlobals d (frequency_columns g) (phase_angle_cols g) (reference_station g).

Definition put_df (d : frame) : M unit := fun g => (inr tt, with_df d g).

Definition put_frequency_columns (l : list string) : M unit :=
  fun g => (inr tt, mkGlobals (df g) l (phase_angle_cols g) (reference_station g)).

Definition put_phase_angle_cols (l : list string) : M unit :=
  fun g => (inr tt, mkGlobals (df g) (frequency_columns g) l (reference_station g)).

Definition put_reference_station (s : string) : M unit :=
  fun g => (inr tt, mkGlobals (df g) (frequency_columns g) (phase_angle_cols g) s).

(** [d[name]]. *)
Definition frame_getitem (d : frame) (name : string) : exn + column :=
  match get_col name d with
  | Some c => inr c
  | None => inl (KeyError name)
  end.

(** [df[name]] on the global table. *)
Definition getitem (name : string) : M column :=
  fun g => (frame_getitem (df g) name, g).

(** [df[name] = c] on the global table. *)
Definition setitem (name : string) (c : column) : M unit :=
  fun g => (inr tt, with_df (set_col name c (df g)) g).

(** A float operation applied to a column.  Datetime columns do not
    support them; no column but [Timestamp] holds datetimes in a loaded
    table. *)
Definition as_floats (c : column) : exn + list float :=
  match c with
  | Floats xs => inr xs
  | Stamps _ => inl TypeError
  end.

(** ** Loading: [main.py], lines 31-32 *)

Definition read_column (c : raw_column) : column :=
  match c with
  | Instants ts => Stamps ts
  | Numbers xs => Floats (map of_raw xs)
  end.

(** [pd.read_csv]. *)
Definition read_csv (f : file) : exn + frame :=
  match f with
  | Absent => inl FileNotFoundError
  | Unparsable => inl ParserError
  | Csv t => inr (map (fun kc => (fst kc, read_column (snd kc))) t)
  end.

(** [pd.to_datetime] on a column of the table: the text fields become
    the instants they denote.  The file format has a text [Timestamp]
    column; a numeric one (which pandas would read as offsets from the
    epoch) is outside the format and left out of the model. *)
Definition to_datetime (c : column) : exn + column :=
  match c with
  | Stamps ts => inr (Stamps ts)
  | Floats _ => inl ValueError
  end.

(** ** The phase-angle integrator: [compute_phase_angle] *)

Definition nominal_default : Q := 50.

Definition compute_phase_angle (df : frame) (freq_col : string) (nominal_freq : Q)
  : exn + list float :=
  timestamps <~ frame_getitem df "Timestamp" ;;
  raw <~ frame_getitem df freq_col ;;
  xs <~ as_floats raw ;;
  let freqs := gap_fill xs in
  match timestamps with
  | Stamps [] => inl IndexError
  | Floats [] => inl IndexError
  | Floats (_ :: _) => inl AttributeError
  | Stamps ((t0 :: _) as ts) =>
      let time_sec := map (fun t => Fin (total_seconds (t - t0))) ts in
      let dt := np_diff_prepend (hd NaN time_sec) time_sec in
      let delta_f := map (fun f => fsub f (Fin nominal_freq)) freqs in
      let delta_theta :=
        zip_with fmul (map (fmul (Fin (2 * np_pi))) delta_f) dt in
      inr (np_cumsum delta_theta)
  end.

(** ** The RoCoF differentiator: [main.py], lines 58-60 *)

Fixpoint stamps_diff_from (prev : Z) (ts : list Z) : list float :=
  match ts with
  | [] => []
  | t :: ts' => Fin (total_seconds (t - prev)) :: stamps_diff_from t ts'
  end.

(** [s.diff().dt.total_seconds()] of a datetime series: the first
    difference is [NaT], whose seconds are [NaN]. *)
Definition diff_total_seconds (c : column) : exn + list float :=
  match c with
  | Stamps [] => inr []
  | Stamps (t :: ts) => inr (NaN :: stamps_diff_from t ts)
  | Floats _ => inl AttributeError
  end.

Definition rocof_series (df : frame) (col : string) : exn + list float :=
  raw <~ frame_getitem df col ;;
  xs <~ as_floats raw ;;
  let freq_series := gap_fill xs in
  timestamps <~ frame_getitem df "Timestamp" ;;
  dts <~ diff_total_seconds timestamps ;;
  inr (zip_with fdiv (series_diff freq_series) dts).

(** ** The module body: [main.py], lines 31-66 *)

(** The loop of lines 52-60.  [rocof] is [true] for [main.py] and [false]
    for [BO_2025/main.py], whose loop stops after [phase_angle_cols.append]. *)
Fixpoint derive_loop (rocof : bool) (cols : list string) : M unit :=
  match cols with
  | [] => ret tt
  | col :: rest =>
      let phase_col := replace "Frequency" "Phase" col in
      d <- get_df ;;
      phase <- lift (compute_phase_angle d col nominal_default) ;;
      setitem phase_col (Floats phase) ;;
      (fun g => put_phase_angle_cols (phase_angle_cols g ++ [phase_col]) g) ;;
      (if rocof then
         let rocof_col := replace "Frequency" "RoCoF" col in
         d' <- get_df ;;
         r <- lift (rocof_series d' col) ;;
         setitem rocof_col (Floats r)
       else ret tt) ;;
      derive_loop rocof rest
  end.

(** [a - b] on two columns of the table. *)
Definition column_sub (a b : column) : exn + column :=
  x <~ as_floats a ;;
  y <~ as_floats b ;;
  inr (Floats (zip_with fsub x y)).

(** The loop of lines 65-66. *)
Fixpoint normalize_loop (cols : list string) : M unit :=
  match cols with
  | [] => ret tt
  | col :: rest =>
      a <- getitem col ;;
      ref <- (fun g => getitem (reference_station g) g) ;;
      v <- lift (column_sub a ref) ;;
      setitem (col ++ "_rel") v ;;
      normalize_loop rest
  end.

(** Lines 31-60: load the table, discover the stations, derive their
    phase (and RoCoF) columns. *)
Definition load_and_derive (rocof : bool) (f : file) : M unit :=
  d <- lift (read_csv f) ;;
  put_df d ;;
  ts <- getitem "Timestamp" ;;
  ts' <- lift (to_datetime ts) ;;
  setitem "Timestamp" ts' ;;
  d1 <- get_df ;;
  let fcols := filter (str_in "Frequency") (headers d1) in
  put_frequency_columns fcols ;;
  put_phase_angle_cols [] ;;
  derive_loop rocof fcols.

(** Lines 63-66: rebase every phase on the reference station. *)
Definition normalize : M unit :=
  put_reference_station "DE_Ostrhauderfehn:Phase" ;;
  (fun g => normalize_loop (phase_angle_cols g) g).

Definition module_body (rocof : bool) (f : file) : M unit :=
  load_and_derive rocof f ;;
  normalize.

(** [main.py] and [BO_2025/main.py]. *)
Definition main_py : file -> M unit := module_body true.
Definition bo_2025_main_py : file -> M unit := module_body false.

(** ** The query interface: [update_graph], [main.py] lines 126-199 *)

Definition COLOR_PALETTE : list string :=
  ["#1f77b4"; "#ff7f0e"; "#2ca02c"; "#d62728"; "#9467bd";
   "#8c564b"; "#e377c2"; "#7f7f7f"; "#bcbd22"; "#17becf"].

(** A [go.Scatter] trace, as far as the derived data goes. *)
Record trace : Type := mkTrace {
  trace_x : column;
  trace_y : column;
  trace_name : string;
  trace_color : string
}.

Record figure : Type := mkFigure {
  fig_data : list trace;
  fig_title : string;
  fig_yaxis_title : string;
  fig_shapes : list Q            (* the ordinates of the threshold lines *)
}.

(** The threshold lines of the Frequency view. *)
Definition frequency_shapes : list Q := [49.8; 50.2; 49.95; 50.05].

(** The column a station is read from, and the axis title, by mode. *)
Definition projected_column (mode freq_col : string) : string * string :=
  if String.eqb mode "Frequency" then
    (freq_col, "Frequency (Hz)")
  else if String.eqb mode "Phase" then
    (replace "Frequency" "Phase" freq_col ++ "_rel", "Relative Phase Angle (rad)")
  else
    (replace "Frequency" "RoCoF" freq_col, "RoCoF (Hz/s)").

(** The loop of lines 155-176: [i] is the position of the station,
    [traces] the list built so far, [yaxis_title] the local of that name,
    unbound before the first iteration. *)
Fixpoint graph_loop (mode : string) (i : nat) (stations : list string)
    (traces : list trace) (yaxis_title : option string)
  : M (list trace * option string) :=
  match stations with
  | [] => ret (traces, yaxis_title)
  | freq_col :: rest =>
      let color :=
        nth (i mod List.length COLOR_PALETTE) COLOR_PALETTE EmptyString in
      let '(col_name, title) := projected_column mode freq_col in
      let label := replace ":Frequency" EmptyString freq_col in
      x <- getitem "Timestamp" ;;
      y <- getitem col_name ;;
      let t := mkTrace x y (label ++ " (" ++ mode ++ ")") color in
      graph_loop mode (S i) rest (traces ++ [t]) (Some title)
  end.

Definition update_graph (selected_stations : list string) (mode : string) : M figure :=
  let shapes := if String.eqb mode "Frequency" then frequency_shapes else [] in
  r <- graph_loop mode 0 selected_stations [] None ;;
  match snd r with
  | None => raise (UnboundLocalError "yaxis_title")
  | Some title => ret (mkFigure (fst r) (mode ++ " over Time") title shapes)
  end.

(** ** Predicates and sample data used by the statements *)

(** Some leading gaps, then at least one cell and only finite ones: the
    shape [interpolate] gives a series that has a valid value. *)
Fixpoint settled (l : list float) : bool :=
  match l with
  | [] => false
  | x :: l' => if isna x then settled l' else forallb is_finite (x :: l')
  end.

(** The table of the worked example: three rows one second apart, from
    the instant [t0] on. *)
Definition sample_frame (t0 : Z) : frame :=
  [("Timestamp", Stamps [t0; t0 + 1000000000; t0 + 2000000000]%Z);
   ("DE_Ostrhauderfehn:Frequency", Floats [Fin 50.00; Fin 50.10; Fin 49.90])].


(** The cell holds the number zero. *)
Definition is_zero (x : float) : Prop := x =f= Fin 0.

(** The globals of a fresh interpreter: nothing bound yet. *)
Definition fresh_globals : globals := mkGlobals [] [] [] EmptyString.

(** A loaded table whose reference station has no measurement at all. *)
Definition silent_reference_file : file :=
  Csv [("Timestamp", Instants [0; 1000000000]%Z);
       ("DE_Ostrhauderfehn:Frequency", Numbers [None; None])].

(** Two stations with the same measurements, one of them the reference. *)
Definition twin_stations_file : file :=
  Csv [("Timestamp", Instants [0; 1000000000; 2000000000]%Z);
       ("DE_Ostrhauderfehn:Frequency", Numbers [Some 50.00; None; Some 49.90]);
       ("ES_Madrid:Frequency", Numbers [Some 50.00; None; Some 49.90])].

(** A filling step keeps what was there: cell by cell, a valid input is
    the output. *)
Definition keeps (l l' : list float) : Prop :=
  Forall2 (fun x y => isna x = false -> y = x) l l'.

(** The globals of [main.py] on the twin stations when the derivation
    loop is done and [reference_station] has been bound. *)
Definition twin_stations_derived : globals :=
  snd (put_reference_station "DE_Ostrhauderfehn:Phase"
         (snd (load_and_derive true twin_stations_file fresh_globals))).

(** The header of a derived column, by textual substitution. *)
Definition phase_name (col : string) : string := replace "Frequency" "Phase" col.
Definition rocof_name (col : string) : string := replace "Frequency" "RoCoF" col.

(** No derived column of a station carries the frequency marker itself:
    what the header convention [<StationID>:Frequency] gives. *)
Definition derived_names_fresh (hs : list string) : bool :=
  forallb (fun col =>
             negb (str_in "Frequency" (phase_name col))
             && negb (str_in "Frequency" (rocof_name col))
             && negb (str_in "Frequency" (phase_name col ++ "_rel")))
          (filter (str_in "Frequency") hs).

(** The table as [read_csv] builds it. *)
Definition read_table (t : list (string * raw_column)) : frame :=
  map (fun kc => (fst kc, read_column (snd kc))) t.

(** A well-formed file without any frequency column. *)
Definition no_station_file : file :=
  Csv [("Timestamp", Instants [0; 1000000000]%Z);
       ("PT_Porto:Voltage", Numbers [Some 230.1; Some 229.8])].

(** The trace [update_graph] builds for the station at position [i]. *)
Definition station_trace (mode : string) (i : nat) (freq_col : string)
    (x y : column) : trace :=
  mkTrace x y (replace ":Frequency" EmptyString freq_col ++ " (" ++ mode ++ ")")
          (nth (i mod List.length COLOR_PALETTE) COLOR_PALETTE EmptyString).

(** The globals of [main.py] once the worked example has been loaded. *)
Definition sample_file : file :=
  Csv [("Timestamp", Instants [0; 1000000000; 2000000000]%Z);
       ("DE_Ostrhauderfehn:Frequency", Numbers [Some 50.00; Some 50.10; Some 49.90]);
       ("ES_Madrid:Frequency", Numbers [None; Some 50.10; None])].

Definition sample_globals : globals := snd (main_py sample_file fresh_globals).

(** Globals left behind by an earlier load of some other file. *)
Definition stale_globals : globals :=
  mkGlobals [("Timestamp", Stamps [7%Z]); ("XX_Old:Frequency", Floats [Fin 49.5]);
             ("XX_Old:Phase", Floats [Fin 3])]
            ["XX_Old:Frequency"] ["XX_Old:Phase"] "XX_Old:Phase".

(** ** The query interface of [BO_2025/main.py], lines 80-107 *)

(** Its [go.Scatter] trace: no line colour. *)
Record bo_trace : Type := mkBoTrace {
  bo_trace_x : column;
  bo_trace_y : column;
  bo_trace_name : string
}.

Record bo_figure : Type := mkBoFigure {
  bo_fig_data : list bo_trace;
  bo_fig_yaxis_title : string
}.

(** Two views only: whatever is not [Frequency] is the relative phase. *)
Definition bo_projected_column (mode freq_col : string) : string :=
  if String.eqb mode "Frequency" then freq_col
  else replace "Frequency" "Phase" freq_col ++ "_rel".

Fixpoint bo_graph_loop (mode : string) (stations : list string)
    (traces : list bo_trace) : M (list bo_trace) :=
  match stations with
  | [] => ret traces
  | freq_col :: rest =>
      let col_name := bo_projected_column mode freq_col in
      let label := replace ":Frequency" EmptyString freq_col in
      x <- getitem "Timestamp" ;;
      y <- getitem col_name ;;
      bo_graph_loop mode rest
                    (traces ++ [mkBoTrace x y (label ++ " (" ++ mode ++ ")")])
  end.

(** The axis title is computed after the loop, so it is always bound. *)
Definition bo_update_graph (selected_stations : list string) (mode : string)
  : M bo_figure :=
  traces <- bo_graph_loop mode selected_stations [] ;;
  let yaxis_title :=
    if String.eqb mode "Frequency" then "Frequency (Hz)" else "Phase Angle (rad)" in
  ret (mkBoFigure traces yaxis_title).

(** ** The layout: [main.py], lines 95-114 *)

(** The options of the station selector: label and value per station. *)
Definition dropdown_options (g : globals) : list (string * string) :=
  map (fun col => (replace ":Frequency" EmptyString col, col)) (frequency_columns g).

(** [value=frequency_columns[:2]]: the stations selected at start. *)
Definition dropdown_default (g : globals) : list string :=
  firstn 2 (frequency_columns g).

(** The view selected at start. *)
Definition mode_default : string := "Frequency".

(** ** Predicates and sample data of the further properties *)

(** The character occurs in the string. *)
Fixpoint char_in (c : ascii) (s : string) : bool :=
  match s with
  | EmptyString => false
  | String x s' => Ascii.eqb x c || char_in c s'
  end.

(** The header of the frequency column of a station, by the convention
    [<StationID>:<SignalKind>]. *)
Definition frequency_header (station : string) : string := station ++ ":Frequency".

(** The timestamps moved by [shift] nanoseconds. *)
Definition shift_stamps (shift : Z) (ts : list Z) : list Z :=
  map (fun t => (t + shift)%Z) ts.

(** The last character of a string. *)
Fixpoint last_char (s : string) : option ascii :=
  match s with
  | EmptyString => None
  | String c s' =>
      match s' with
      | EmptyString => Some c
      | String _ _ => last_char s'
      end
  end.

(** The headers of a table that carry the marker follow the convention,
    with station identifiers that do not carry the marker themselves. *)
Definition conventional (hs : list string) : Prop :=
  forall h, In h hs -> str_in "Frequency" h = true ->
            exists station, h = frequency_header station
                            /\ str_in "Frequency" station = false.

(** The derived headers of the stations [cols] collide neither with the
    columns the derivation reads nor with one another. *)
Definition names_distinct (cols : list string) : Prop :=
  (forall c k, In c cols -> In k ("Timestamp" :: cols) ->
               phase_name c <> k /\ rocof_name c <> k)
  /\ (forall c c', In c cols -> In c' cols -> phase_name c <> rocof_name c')
  /\ (forall c c', In c cols -> In c' cols -> c <> c' ->
                   phase_name c <> phase_name c' /\ rocof_name c <> rocof_name c').

(** A file whose stations do not include the reference station. *)
Definition no_reference_file : file :=
  Csv [("Timestamp", Instants [0; 1000000000]%Z);
       ("ES_Madrid:Frequency", Numbers [Some 50.00; Some 50.10])].

(** A file with a station and no row. *)
Definition no_row_file : file :=
  Csv [("Timestamp", Instants []); ("ES_Madrid:Frequency", Numbers [])].

(** A trace of [main.py] without its colour. *)
Definition to_bo (t : trace) : bo_trace :=
  mkBoTrace (trace_x t) (trace_y t) (trace_name t).

(** The axis title of [BO_2025/main.py]. *)
Definition bo_yaxis_title (mode : string) : string :=
  if String.eqb mode "Frequency" then "Frequency (Hz)" else "Phase Angle (rad)".

(** * Properties *)

(** ** Cells *)

Lemma feq_refl (x : float) : x =f= x.
Proof. destruct x; simpl; auto. reflexivity. Qed.

Lemma feq_sym (x y : float) : x =f= y -> y =f= x.
Proof. destruct x, y; simpl; auto. intros H; now rewrite H. Qed.

Lemma feq_trans (x y z : float) : x =f= y -> y =f= z -> x =f= z.
Proof.
  destruct x, y, z; simpl; try tauto; try congruence.
  intros H1 H2. now rewrite H1.
Qed.

Lemma Qis_zero_false (q : Q) : ~ q == 0 -> Qis_zero q = false.
Proof.
  intros H. unfold Qis_zero. destruct (Qeq_bool q 0) eqn:E; auto.
  apply Qeq_bool_iff in E. contradiction.
Qed.

Lemma Qis_zero_of_nat (n : nat) : Qis_zero (inject_Z (Z.of_nat (S n))) = false.
Proof.
  apply Qis_zero_false. unfold Qeq, inject_Z. simpl. lia.
Qed.

(** ** Gap filling *)

Lemma interpolate_from_length (l : list float) :
  forall prev k, List.length (interpolate_from prev k l) = List.length l.
Proof.
  induction l as [|x l IH]; intros prev k; simpl; auto.
  destruct (isna x); simpl; now rewrite IH.
Qed.

Lemma interpolate_length (l : list float) :
  List.length (interpolate l) = List.length l.
Proof.
  induction l as [|x l IH]; simpl; auto.
  destruct (isna x); simpl; [now rewrite IH | now rewrite interpolate_from_length].
Qed.

Lemma bfill_length (l : list float) : List.length (bfill l) = List.length l.
Proof. induction l as [|x l IH]; simpl; auto. Qed.

Lemma ffill_from_length (l : list float) :
  forall prev, List.length (ffill_from prev l) = List.length l.
Proof.
  induction l as [|x l IH]; intros prev; simpl; auto.
  destruct (isna x); simpl; now rewrite IH.
Qed.

Lemma gap_fill_length (l : list float) : List.length (gap_fill l) = List.length l.
Proof.
  unfold gap_fill, ffill.
  now rewrite ffill_from_length, bfill_length, interpolate_length.
Qed.

Lemma keeps_trans (l1 l2 l3 : list float) :
  keeps l1 l2 -> keeps l2 l3 -> keeps l1 l3.
Proof.
  unfold keeps. intros H. revert l3.
  induction H as [|x y l1 l2 Hxy H IH]; intros l3 H23; inversion H23; subst.
  - constructor.
  - constructor; [|now apply IH].
    intros Hx. specialize (Hxy Hx). subst y. auto.
Qed.

Lemma interpolate_from_keeps (l : list float) :
  forall prev k, keeps l (interpolate_from prev k l).
Proof.
  induction l as [|x l IH]; intros prev k; simpl; [constructor|].
  destruct (isna x) eqn:E; constructor; try apply IH; intros; congruence.
Qed.

Lemma interpolate_keeps (l : list float) : keeps l (interpolate l).
Proof.
  induction l as [|x l IH]; simpl; [constructor|].
  destruct (isna x) eqn:E; constructor; auto.
  apply interpolate_from_keeps.
Qed.

Lemma bfill_keeps (l : list float) : keeps l (bfill l).
Proof.
  induction l as [|x l IH]; simpl; [constructor|].
  constructor; auto. intros E. now rewrite E.
Qed.

Lemma ffill_from_keeps (l : list float) : forall prev, keeps l (ffill_from prev l).
Proof.
  induction l as [|x l IH]; intros prev; simpl; [constructor|].
  destruct (isna x) eqn:E; constructor; try apply IH; intros; congruence.
Qed.

Lemma gap_fill_keeps (l : list float) : keeps l (gap_fill l).
Proof.
  unfold gap_fill, ffill.
  eapply keeps_trans; [apply interpolate_keeps|].
  eapply keeps_trans; [apply bfill_keeps|apply ffill_from_keeps].
Qed.

Lemma keeps_nth_error (l l' : list float) :
  keeps l l' ->
  forall i x, nth_error l i = Some x -> isna x = false -> nth_error l' i = Some x.
Proof.
  induction 1 as [|x y l l' Hxy H IH]; intros i z Hi Hz.
  - destruct i; discriminate.
  - destruct i as [|i]; simpl in *.
    + inversion Hi; subst. now rewrite (Hxy Hz).
    + eauto.
Qed.

(** A series without gaps goes through the chain untouched. *)
Lemma interpolate_from_finite (l : list float) :
  forallb is_finite l = true -> forall prev k, interpolate_from prev k l = l.
Proof.
  induction l as [|x l IH]; simpl; auto.
  intros H prev k. apply andb_true_iff in H as [Hx Hl].
  destruct x; try discriminate. simpl. now rewrite IH.
Qed.

Lemma interpolate_finite (l : list float) :
  forallb is_finite l = true -> interpolate l = l.
Proof.
  destruct l as [|x l]; simpl; auto.
  intros H. apply andb_true_iff in H as [Hx Hl].
  destruct x; try discriminate. simpl. now rewrite interpolate_from_finite.
Qed.

Lemma bfill_finite (l : list float) : forallb is_finite l = true -> bfill l = l.
Proof.
  induction l as [|x l IH]; simpl; auto.
  intros H. apply andb_true_iff in H as [Hx Hl].
  destruct x; try discriminate. simpl. now rewrite IH.
Qed.

Lemma ffill_from_finite (l : list float) :
  forallb is_finite l = true -> forall prev, ffill_from prev l = l.
Proof.
  induction l as [|x l IH]; simpl; auto.
  intros H prev. apply andb_true_iff in H as [Hx Hl].
  destruct x; try discriminate. simpl. now rewrite IH.
Qed.

Lemma gap_fill_finite (l : list float) :
  forallb is_finite l = true -> gap_fill l = l.
Proof.
  intros H. unfold gap_fill, ffill.
  rewrite (interpolate_finite l H), (bfill_finite l H).
  now apply ffill_from_finite.
Qed.

(** On measured data (finite or missing cells), [interpolate] leaves
    gaps only before the first valid value. *)
Lemma next_valid_raw (xs : list (option Q)) :
  forall d v, next_valid (map of_raw xs) = Some (d, v) -> is_finite v = true.
Proof.
  induction xs as [|[q|] xs IH]; simpl; intros d v H.
  - discriminate.
  - now inversion H.
  - destruct (next_valid (map of_raw xs)) as [[d' v']|]; [|discriminate].
    inversion H; subst. eauto.
Qed.

Lemma lerp_finite (a b : float) (k d : nat) :
  is_finite a = true -> is_finite b = true ->
  is_finite (lerp a b k (k + S d)) = true.
Proof.
  destruct a, b; try discriminate. intros _ _.
  unfold lerp. rewrite Nat.add_succ_r.
  unfold fsub, fdiv. now rewrite Qis_zero_of_nat.
Qed.

Lemma interpolate_from_raw (xs : list (option Q)) :
  forall p k,
    forallb is_finite (interpolate_from (Fin p) k (map of_raw xs)) = true.
Proof.
  induction xs as [|[q|] xs IH]; intros p k; simpl; auto.
  rewrite IH, andb_true_r.
  destruct (next_valid (map of_raw xs)) as [[d v]|] eqn:E; auto.
  apply lerp_finite; auto. eapply next_valid_raw; eauto.
Qed.

Lemma interpolate_settled (xs : list (option Q)) :
  (exists q, In (Some q) xs) -> settled (interpolate (map of_raw xs)) = true.
Proof.
  induction xs as [|[q|] xs IH]; intros [q' H].
  - destruct H.
  - simpl. apply interpolate_from_raw.
  - simpl. apply IH. destruct H as [H|H]; [discriminate|eauto].
Qed.

Lemma settled_nonempty (l : list float) : settled l = true -> l <> [].
Proof. destruct l; simpl; congruence. Qed.

Lemma bfill_settled (l : list float) :
  settled l = true -> forallb is_finite (bfill l) = true.
Proof.
  induction l as [|x l IH]; [discriminate|].
  destruct x; cbn [settled isna].
  - intros H. specialize (IH H). cbn [bfill isna].
    cbn [forallb]. rewrite IH, andb_true_r.
    destruct (bfill l) as [|y r] eqn:E.
    + apply settled_nonempty in H. destruct l; [congruence|discriminate].
    + simpl in IH |- *. now apply andb_true_iff in IH as [Hy _].
  - intros H. rewrite bfill_finite; auto.
  - intros H. discriminate.
Qed.

Lemma gap_fill_raw_finite (xs : list (option Q)) :
  (exists q, In (Some q) xs) ->
  forallb is_finite (gap_fill (map of_raw xs)) = true.
Proof.
  intros H. unfold gap_fill, ffill.
  pose proof (bfill_settled _ (interpolate_settled xs H)) as Hb.
  now rewrite ffill_from_finite.
Qed.

(** A series with no valid value at all stays as it is. *)
Lemma gap_fill_all_missing (n : nat) : gap_fill (repeat NaN n) = repeat NaN n.
Proof.
  unfold gap_fill, ffill.
  replace (interpolate (repeat NaN n)) with (repeat NaN n)
    by (induction n; simpl; congruence).
  replace (bfill (repeat NaN n)) with (repeat NaN n).
  - induction n; simpl; congruence.
  - induction n as [|n IH]; [reflexivity|].
    cbn [repeat bfill isna]. rewrite <- IH. now destruct n.
Qed.

(** C3, as stated, fails: a station whose every cell is missing is still
    all missing after the chain [interpolate], [bfill], [ffill]. *)
Lemma gap_fill_all_missing_counterexample :
  gap_fill (map of_raw [None; None; None]) = [NaN; NaN; NaN]
  /\ existsb isna (gap_fill (map of_raw [None; None; None])) = true.
Proof. split; reflexivity. Qed.

(** C3 (amended): for every raw frequency sequence that holds at least one
    value (missing entries anywhere else, also at the start and the end),
    the chain [interpolate], [bfill], [ffill] gives a sequence of the same
    length without any missing cell, and every cell that was not missing
    is kept exactly. *)
Theorem gap_fill_complete_and_exact (xs : list (option Q))
    (Hvalid : exists i q, nth_error xs i = Some (Some q)) :
  let out := gap_fill (map of_raw xs) in
  List.length out = List.length xs
  /\ (forall i x, nth_error out i = Some x -> isna x = false)
  /\ (forall i q, nth_error xs i = Some (Some q) -> nth_error out i = Some (Fin q)).
Proof.
  intros out. subst out. split; [|split].
  - now rewrite gap_fill_length, length_map.
  - intros i x Hi.
    assert (Hf : forallb is_finite (gap_fill (map of_raw xs)) = true).
    { apply gap_fill_raw_finite. destruct Hvalid as (j & q & Hj).
      exists q. eapply nth_error_In; eauto. }
    rewrite forallb_forall in Hf. apply nth_error_In in Hi.
    specialize (Hf x Hi). now destruct x.
  - intros i q Hi.
    apply (keeps_nth_error _ _ (gap_fill_keeps (map of_raw xs))); auto.
    now rewrite nth_error_map, Hi.
Qed.

Lemma gap_fill_complete_and_exact_witness :
  let xs := [None; Some 49.9; None; None; Some 50.2; None] in
  let out := gap_fill (map of_raw xs) in
  List.length out = List.length xs
  /\ (forall i x, nth_error out i = Some x -> isna x = false)
  /\ (forall i q, nth_error xs i = Some (Some q) -> nth_error out i = Some (Fin q)).
Proof.
  apply (gap_fill_complete_and_exact [None; Some 49.9; None; None; Some 50.2; None]).
  exists 1%nat, 49.9. reflexivity.
Defined.

(** ** Aligned series *)

Lemma zip_with_length {A B C} (f : A -> B -> C) (xs : list A) :
  forall ys, List.length xs = List.length ys ->
             List.length (zip_with f xs ys) = List.length xs.
Proof.
  induction xs as [|x xs IH]; intros [|y ys] H; simpl in *; auto; try discriminate.
Qed.

Lemma zip_with_nth_error {A B C} (f : A -> B -> C) (xs : list A) :
  forall ys i x y,
    nth_error xs i = Some x -> nth_error ys i = Some y ->
    nth_error (zip_with f xs ys) i = Some (f x y).
Proof.
  induction xs as [|a xs IH]; intros [|b ys] [|i] x y Hx Hy; simpl in *;
    try discriminate.
  - now inversion Hx; inversion Hy.
  - eauto.
Qed.

Lemma diff_from_length (l : list float) :
  forall prev, List.length (diff_from prev l) = List.length l.
Proof. induction l as [|x l IH]; intros prev; simpl; auto. Qed.

Lemma diff_from_nth_error (l : list float) :
  forall prev i x y,
    nth_error l i = Some x -> nth_error (prev :: l) i = Some y ->
    nth_error (diff_from prev l) i = Some (fsub x y).
Proof.
  induction l as [|a l IH]; intros prev [|i] x y Hx Hy; simpl in *;
    try discriminate.
  - now inversion Hx; inversion Hy.
  - eapply IH; eauto.
Qed.

Lemma stamps_diff_from_length (ts : list Z) :
  forall prev, List.length (stamps_diff_from prev ts) = List.length ts.
Proof. induction ts as [|t ts IH]; intros prev; simpl; auto. Qed.

Lemma stamps_diff_from_nth_error (ts : list Z) :
  forall prev i t u,
    nth_error ts i = Some t -> nth_error (prev :: ts) i = Some u ->
    nth_error (stamps_diff_from prev ts) i = Some (Fin (total_seconds (t - u))).
Proof.
  induction ts as [|a ts IH]; intros prev [|i] t u Ht Hu; simpl in *;
    try discriminate.
  - now inversion Ht; inversion Hu.
  - eapply IH; eauto.
Qed.

Lemma total_seconds_nonzero (z : Z) : z <> 0%Z -> Qis_zero (total_seconds z) = false.
Proof.
  intros H. apply Qis_zero_false. unfold total_seconds, Qeq. simpl. lia.
Qed.

(** ** RoCoF *)

(** C4: for every frequency column and timestamp column of the table, the
    RoCoF series has the length of the table, its cell 0 is the missing
    marker [NaN] (not zero, not a default), and for every [i >= 1] its
    cell [i] is the difference of the gap-filled frequencies [i] and
    [i-1] divided by the seconds elapsed between the timestamps [i-1] and
    [i]: a finite quotient when the two instants differ. *)
Theorem rocof_first_missing_then_quotient
    (d : frame) (col : string) (ts : list Z) (xs : list float)
    (Hts : get_col "Timestamp" d = Some (Stamps ts))
    (Hcol : get_col col d = Some (Floats xs))
    (Hlen : List.length ts = List.length xs) :
  exists r,
    rocof_series d col = inr r
    /\ List.length r = List.length xs
    /\ (xs <> [] -> nth_error r 0 = Some NaN /\ ~ NaN =f= Fin 0)
    /\ (forall i f1 f0 t1 t0,
          nth_error (gap_fill xs) (S i) = Some f1 ->
          nth_error (gap_fill xs) i = Some f0 ->
          nth_error ts (S i) = Some t1 ->
          nth_error ts i = Some t0 ->
          nth_error r (S i) = Some (fdiv (fsub f1 f0) (Fin (total_seconds (t1 - t0))))
          /\ (forall a b, f1 = Fin a -> f0 = Fin b -> t1 <> t0 ->
                nth_error r (S i) = Some (Fin ((a - b) / total_seconds (t1 - t0))))).
Proof.
  unfold rocof_series, frame_getitem. rewrite Hcol, Hts. cbn [try_bind as_floats].
  pose proof (gap_fill_length xs) as Hg.
  destruct ts as [|t ts]; destruct (gap_fill xs) as [|g gs] eqn:Eg;
    destruct xs as [|x xs]; simpl in Hlen, Hg; try discriminate.
  - exists []. cbn. repeat split; try congruence.
  - cbn [diff_total_seconds try_bind series_diff zip_with fdiv].
    eexists. split; [reflexivity|]. split; [|split].
    + cbn [List.length]. f_equal.
      rewrite zip_with_length; rewrite ?diff_from_length, ?stamps_diff_from_length;
        congruence.
    + intros _. split; [reflexivity|]. simpl. tauto.
    + intros i f1 f0 t1 t0 Hf1 Hf0 Ht1 Ht0.
      assert (E : nth_error
                    (NaN :: zip_with fdiv (diff_from g gs) (stamps_diff_from t ts))
                    (S i)
                  = Some (fdiv (fsub f1 f0) (Fin (total_seconds (t1 - t0))))).
      { cbn [nth_error]. apply zip_with_nth_error.
        - eapply diff_from_nth_error; eauto.
        - eapply stamps_diff_from_nth_error; eauto. }
      split; [exact E|].
      intros a b -> -> Hne. rewrite E. cbn [fsub fdiv].
      rewrite total_seconds_nonzero by lia. reflexivity.
Qed.

Lemma rocof_first_missing_then_quotient_witness :
  exists r,
    rocof_series (sample_frame 0) "DE_Ostrhauderfehn:Frequency" = inr r
    /\ List.length r = 3%nat
    /\ nth_error r 0 = Some NaN
    /\ nth_error r 1 = Some (Fin ((50.10 - 50.00) / total_seconds (1000000000 - 0))).
Proof.
  destruct (rocof_first_missing_then_quotient
              (sample_frame 0) "DE_Ostrhauderfehn:Frequency"
              [0; 1000000000; 2000000000]%Z [Fin 50.00; Fin 50.10; Fin 49.90]
              eq_refl eq_refl eq_refl) as (r & Hr & Hl & H0 & Hi).
  exists r. split; [exact Hr|]. split; [exact Hl|]. split.
  - apply H0. discriminate.
  - apply (Hi 0%nat (Fin 50.10) (Fin 50.00) 1000000000%Z 0%Z
              eq_refl eq_refl eq_refl eq_refl); [reflexivity|reflexivity|discriminate].
Defined.

(** ** The worked example *)


(** ** Phase integration *)

Lemma compute_phase_angle_unfold
    (d : frame) (col : string) (nominal : Q) (t0 : Z) (ts : list Z) (fs : list float) :
  get_col "Timestamp" d = Some (Stamps (t0 :: ts)) ->
  get_col col d = Some (Floats fs) ->
  compute_phase_angle d col nominal =
    inr (np_cumsum
           (zip_with fmul
              (map (fmul (Fin (2 * np_pi)))
                   (map (fun f => fsub f (Fin nominal)) (gap_fill fs)))
              (diff_from (Fin (total_seconds (t0 - t0)))
                         (map (fun t => Fin (total_seconds (t - t0))) (t0 :: ts))))).
Proof.
  intros Hts Hcol. unfold compute_phase_angle, frame_getitem.
  rewrite Hts, Hcol. reflexivity.
Qed.

Lemma fmul_feq (x y : float) (a b : Q) :
  x =f= Fin a -> y =f= Fin b -> fmul x y =f= Fin (a * b).
Proof.
  destruct x, y; simpl; try tauto. intros H1 H2. now rewrite H1, H2.
Qed.

Lemma fadd_feq (x y : float) (a b : Q) :
  x =f= Fin a -> y =f= Fin b -> fadd x y =f= Fin (a + b).
Proof.
  destruct x, y; simpl; try tauto. intros H1 H2. now rewrite H1, H2.
Qed.

Lemma feq_Fin_Qeq (x : float) (a b : Q) : x =f= Fin a -> a == b -> x =f= Fin b.
Proof. destruct x; simpl; try tauto. intros H1 H2. now rewrite H1. Qed.

Lemma diff_from_finite (l : list float) :
  forall prev, is_finite prev = true -> forallb is_finite l = true ->
               forallb is_finite (diff_from prev l) = true.
Proof.
  induction l as [|x l IH]; intros prev Hp H; simpl in *; auto.
  apply andb_true_iff in H as [Hx Hl].
  destruct x, prev; try discriminate. simpl. now apply IH.
Qed.

Lemma seconds_finite (t0 : Z) (ts : list Z) :
  forallb is_finite (map (fun t => Fin (total_seconds (t - t0))) ts) = true.
Proof. induction ts; simpl; auto. Qed.

(** Increments that are all zero add up to zero at every index. *)
Lemma cumsum_from_zero (l : list float) :
  forall acc, is_zero acc -> Forall is_zero l -> Forall is_zero (cumsum_from acc l).
Proof.
  unfold is_zero.
  induction l as [|x l IH]; intros acc Ha Hl; simpl; [constructor|].
  inversion Hl; subst.
  assert (Hs : fadd acc x =f= Fin 0).
  { eapply feq_Fin_Qeq; [apply fadd_feq; eauto|]. ring. }
  constructor; auto.
Qed.

Lemma np_cumsum_zero (l : list float) : Forall is_zero l -> Forall is_zero (np_cumsum l).
Proof.
  intros H. destruct l as [|x l]; simpl; [constructor|].
  inversion H; subst. constructor; auto. now apply cumsum_from_zero.
Qed.

Lemma zero_times_finite (xs : list float) :
  forall ys, Forall is_zero xs -> forallb is_finite ys = true ->
             Forall is_zero (zip_with fmul xs ys).
Proof.
  unfold is_zero.
  induction xs as [|x xs IH]; intros [|y ys] Hx Hy; simpl in *; try constructor.
  - inversion Hx; subst. apply andb_true_iff in Hy as [Hy _].
    destruct y as [|b|]; try discriminate.
    eapply feq_Fin_Qeq; [apply fmul_feq; [eassumption|apply feq_refl]|]. ring.
  - inversion Hx; subst. apply andb_true_iff in Hy as [_ Hy]. auto.
Qed.

Lemma constant_finite (v : Q) (fs : list float) :
  Forall (fun x => x =f= Fin v) fs -> forallb is_finite fs = true.
Proof.
  induction 1 as [|x fs Hx H IH]; simpl; auto.
  destruct x; simpl in Hx; tauto.
Qed.

(** The scaled deviations [2 * pi * (f - nominal)] of a constant series. *)
Lemma constant_deviation (nominal v : Q) (fs : list float) :
  Forall (fun x => x =f= Fin v) fs ->
  Forall (fun x => x =f= Fin (2 * np_pi * (v - nominal)))
         (map (fmul (Fin (2 * np_pi))) (map (fun f => fsub f (Fin nominal)) fs)).
Proof.
  induction 1 as [|x fs Hx H IH]; simpl; constructor; auto.
  destruct x; simpl in Hx |- *; try tauto. now rewrite Hx.
Qed.

(** C8: for every timestamp sequence, evenly spaced or not, and the
    frequency constant at exactly the nominal value, the phase angle is
    zero at every index. *)
Theorem phase_zero_at_nominal
    (d : frame) (col : string) (nominal : Q) (t0 : Z) (ts : list Z) (fs : list float)
    (Hts : get_col "Timestamp" d = Some (Stamps (t0 :: ts)))
    (Hcol : get_col col d = Some (Floats fs))
    (Hlen : List.length fs = List.length (t0 :: ts))
    (Hconst : Forall (fun x => x =f= Fin nominal) fs) :
  exists phase,
    compute_phase_angle d col nominal = inr phase
    /\ List.length phase = List.length (t0 :: ts)
    /\ Forall is_zero phase.
Proof.
  rewrite (compute_phase_angle_unfold _ _ _ _ _ _ Hts Hcol).
  eexists. split; [reflexivity|].
  rewrite gap_fill_finite by (eapply constant_finite; eauto).
  set (dts := diff_from _ _).
  set (incs := zip_with _ _ _).
  assert (Hd : forallb is_finite dts = true).
  { apply diff_from_finite; [reflexivity|apply seconds_finite]. }
  assert (Hl : List.length incs = List.length (t0 :: ts)).
  { subst incs dts. rewrite zip_with_length; rewrite ?diff_from_length, !length_map;
      auto. }
  split.
  - rewrite <- Hl. destruct incs; simpl; auto.
    clear. f_equal. revert f. induction incs; intros f; simpl; auto.
  - apply np_cumsum_zero. apply zero_times_finite; auto.
    eapply Forall_impl; [|apply (constant_deviation nominal nominal fs Hconst)].
    intros x Hx. unfold is_zero. eapply feq_Fin_Qeq; [exact Hx|]. ring.
Qed.

Lemma phase_zero_at_nominal_witness :
  exists phase,
    compute_phase_angle
      [("Timestamp", Stamps [0; 1000000000; 5000000000; 5200000000]%Z);
       ("PT_Porto:Frequency", Floats (repeat (Fin 50.0) 4))]
      "PT_Porto:Frequency" 50.0 = inr phase
    /\ List.length phase = 4%nat
    /\ Forall is_zero phase.
Proof.
  apply (phase_zero_at_nominal
           [("Timestamp", Stamps [0; 1000000000; 5000000000; 5200000000]%Z);
            ("PT_Porto:Frequency", Floats (repeat (Fin 50.0) 4))]
           "PT_Porto:Frequency" 50.0 0%Z [1000000000; 5000000000; 5200000000]%Z
           (repeat (Fin 50.0) 4));
    try reflexivity.
  repeat constructor; reflexivity.
Defined.








(** ** The table *)

Lemma get_set_same (k : string) (c : column) (d : frame) :
  get_col k (set_col k c d) = Some c.
Proof.
  induction d as [|[k' x] d IH]; simpl.
  - now rewrite String.eqb_refl.
  - destruct (String.eqb k' k) eqn:E; simpl; rewrite E; auto.
Qed.

Lemma get_set_other (k k' : string) (c : column) (d : frame) :
  k <> k' -> get_col k' (set_col k c d) = get_col k' d.
Proof.
  intros Hne. induction d as [|[k0 x] d IH]; simpl.
  - destruct (String.eqb k k') eqn:E; auto.
    apply String.eqb_eq in E. contradiction.
  - destruct (String.eqb k0 k) eqn:E; simpl.
    + apply String.eqb_eq in E. subst k0.
      destruct (String.eqb k k') eqn:E'; auto.
      apply String.eqb_eq in E'. contradiction.
    + now rewrite IH.
Qed.

Lemma set_col_unchanged (k : string) (c : column) (d : frame) :
  get_col k d = Some c -> set_col k c d = d.
Proof.
  induction d as [|[k0 x] d IH]; simpl; [discriminate|].
  destruct (String.eqb k0 k) eqn:E.
  - intros H. inversion H. reflexivity.
  - intros H. now rewrite IH.
Qed.

Lemma set_col_present (k k' : string) (c : column) (d : frame) :
  get_col k' d <> None -> get_col k' (set_col k c d) <> None.
Proof.
  destruct (string_dec k k') as [->|Hne].
  - rewrite get_set_same. discriminate.
  - now rewrite get_set_other.
Qed.

(** ** Strings *)

Lemma append_length (s t : string) :
  String.length (s ++ t) = (String.length s + String.length t)%nat.
Proof. induction s; simpl; auto. Qed.

Lemma append_cancel_r (s s' t : string) : s ++ t = s' ++ t -> s = s'.
Proof.
  revert s'. induction s as [|a s IH]; intros [|b s'] H; simpl in *; auto.
  - apply (f_equal String.length) in H. simpl in H. rewrite append_length in H. lia.
  - apply (f_equal String.length) in H. simpl in H. rewrite append_length in H. lia.
  - inversion H. f_equal. auto.
Qed.

(** ** Reference normalization *)

Lemma normalize_loop_cons (col : string) (rest : list string) (g : globals) :
  normalize_loop (col :: rest) g =
    match frame_getitem (df g) col with
    | inl e => (inl e, g)
    | inr a =>
        match frame_getitem (df g) (reference_station g) with
        | inl e => (inl e, g)
        | inr r =>
            match column_sub a r with
            | inl e => (inl e, g)
            | inr v => normalize_loop rest (with_df (set_col (col ++ "_rel") v (df g)) g)
            end
        end
    end.
Proof.
  cbn [normalize_loop]. unfold bind, getitem, lift, setitem, with_df.
  destruct (frame_getitem (df g) col); reflexivity.
Qed.

(** The loop writes only the [_rel] columns of its stations. *)
Lemma normalize_loop_frame (cols : list string) :
  forall g r g',
    normalize_loop cols g = (r, g') ->
    frequency_columns g' = frequency_columns g
    /\ phase_angle_cols g' = phase_angle_cols g
    /\ reference_station g' = reference_station g
    /\ (forall k, (forall c, In c cols -> c ++ "_rel" <> k) ->
                  get_col k (df g') = get_col k (df g))
    /\ (forall k, get_col k (df g) <> None -> get_col k (df g') <> None).
Proof.
  induction cols as [|col rest IH]; intros g r g' H.
  - inversion H; subst. repeat split; auto.
  - rewrite normalize_loop_cons in H.
    destruct (frame_getitem (df g) col) as [e|a];
      [inversion H; subst; repeat split; auto|].
    destruct (frame_getitem (df g) (reference_station g)) as [e|rf];
      [inversion H; subst; repeat split; auto|].
    destruct (column_sub a rf) as [e|v];
      [inversion H; subst; repeat split; auto|].
    apply IH in H as (Hf & Hp & Hr & Hk & Hpres). cbn in Hf, Hp, Hr, Hk, Hpres.
    repeat split; auto.
    + intros k Hne. rewrite Hk by (intros c Hc; apply Hne; now right).
      apply get_set_other. apply Hne. now left.
    + intros k Hk0. apply Hpres. now apply set_col_present.
Qed.

Lemma column_sub_floats (a b : column) (v : column) :
  column_sub a b = inr v ->
  exists x y, a = Floats x /\ b = Floats y /\ v = Floats (zip_with fsub x y).
Proof.
  destruct a, b; simpl; intros H; try discriminate.
  inversion H. eauto.
Qed.

Lemma frame_getitem_inr (d : frame) (k : string) (c : column) :
  frame_getitem d k = inr c <-> get_col k d = Some c.
Proof.
  unfold frame_getitem. destruct (get_col k d); split; intros H;
    inversion H; auto.
Qed.

(** What a successful run of the loop leaves in each [_rel] column, when
    no [_rel] name is the name of a phase column or of the reference. *)
Lemma normalize_loop_spec (cols : list string) :
  forall g g',
    normalize_loop cols g = (inr tt, g') ->
    (forall c, In c cols -> ~ In (c ++ "_rel") (reference_station g :: cols)) ->
    forall c, In c cols ->
      exists a rf,
        get_col c (df g) = Some (Floats a)
        /\ get_col (reference_station g) (df g) = Some (Floats rf)
        /\ get_col (c ++ "_rel") (df g') = Some (Floats (zip_with fsub a rf)).
Proof.
  induction cols as [|col rest IH]; intros g g' H Hfresh c Hc; [destruct Hc|].
  rewrite normalize_loop_cons in H.
  destruct (frame_getitem (df g) col) as [e|a] eqn:Ea; [discriminate|].
  destruct (frame_getitem (df g) (reference_station g)) as [e|rf] eqn:Er;
    [discriminate|].
  destruct (column_sub a rf) as [e|v] eqn:Ev; [discriminate|].
  apply column_sub_floats in Ev as (x & y & -> & -> & ->).
  apply frame_getitem_inr in Ea, Er.
  set (g1 := with_df _ g) in H.
  assert (Hkeep : forall k, In k (reference_station g :: col :: rest) ->
                            get_col k (df g1) = get_col k (df g)).
  { intros k Hk. subst g1. cbn. apply get_set_other.
    intros E. apply (Hfresh col (or_introl eq_refl)). now rewrite E. }
  destruct (in_dec string_dec c rest) as [Hin|Hnin].
  - destruct (IH g1 g' H) with (c := c) as (a' & rf' & Ha' & Hrf' & Hres); auto.
    { intros c' Hc' Hbad. apply (Hfresh c' (or_intror Hc')).
      destruct Hbad as [Hbad|Hbad]; [now left|now right; right]. }
    change (reference_station g1) with (reference_station g) in Hrf'.
    rewrite Hkeep in Ha' by (right; exact Hc).
    rewrite Hkeep in Hrf' by now left.
    eauto.
  - destruct Hc as [<-|Hc]; [|contradiction].
    exists x, y. repeat split; auto.
    apply normalize_loop_frame in H as (_ & _ & _ & Hk & _).
    rewrite Hk.
    + subst g1. cbn. apply get_set_same.
    + intros c' Hc' E. apply append_cancel_r in E. subst c'. contradiction.
Qed.

Lemma sub_equal_is_zero (q : list float) :
  forall p, series_eq q p -> forallb is_finite p = true ->
            List.length (zip_with fsub q p) = List.length p
            /\ Forall is_zero (zip_with fsub q p).
Proof.
  unfold series_eq, is_zero.
  induction q as [|a q IH]; intros p H Hp; inversion H; subst; simpl.
  - split; [reflexivity|constructor].
  - simpl in Hp. apply andb_true_iff in Hp as [Hy Hl].
    destruct (IH _ H4 Hl) as [IH1 IH2].
    split; [now rewrite IH1|]. constructor; auto.
    destruct y as [|b|]; try discriminate. destruct a; simpl in *; try tauto.
    rewrite H2. ring.
Qed.

Lemma series_eq_refl (p : list float) : series_eq p p.
Proof. induction p; constructor; auto using feq_refl. Qed.

(** C5, as stated, fails: when the reference station has no measurement
    at all its phase cells are missing, and so are its relative phases
    ([NaN - NaN] is [NaN]), not zero. *)
Lemma reference_relative_phase_counterexample :
  fst (main_py silent_reference_file fresh_globals) = inr tt
  /\ get_col "DE_Ostrhauderfehn:Phase_rel"
             (df (snd (main_py silent_reference_file fresh_globals)))
     = Some (Floats [NaN; NaN])
  /\ ~ Forall is_zero [NaN; NaN].
Proof.
  split; [reflexivity|]. split; [reflexivity|].
  intros H. inversion H; subst. assumption.
Qed.

(** C5 (amended): after the normalization loop has run, provided the
    absolute phase of the reference station has only finite cells and no
    [_rel] column name is the name of a phase column or of the reference,
    the relative phase of the reference station is zero at every index,
    and so is the relative phase of every station whose absolute phase is
    element-wise equal to the reference's. *)
Theorem reference_relative_phase_zero
    (cols : list string) (g g' : globals) (p : list float)
    (Hrun : normalize_loop cols g = (inr tt, g'))
    (Hfresh : forall c, In c cols -> ~ In (c ++ "_rel") (reference_station g :: cols))
    (Href : get_col (reference_station g) (df g) = Some (Floats p))
    (Hfinite : forallb is_finite p = true) :
  (In (reference_station g) cols ->
     exists z, get_col (reference_station g ++ "_rel") (df g') = Some (Floats z)
               /\ List.length z = List.length p /\ Forall is_zero z)
  /\ (forall c q, In c cols -> get_col c (df g) = Some (Floats q) -> series_eq q p ->
        exists z, get_col (c ++ "_rel") (df g') = Some (Floats z)
                  /\ List.length z = List.length p /\ Forall is_zero z).
Proof.
  assert (Hgen : forall c q, In c cols -> get_col c (df g) = Some (Floats q) ->
                   series_eq q p ->
                   exists z, get_col (c ++ "_rel") (df g') = Some (Floats z)
                             /\ List.length z = List.length p /\ Forall is_zero z).
  { intros c q Hc Hq Heq.
    destruct (normalize_loop_spec cols g g' Hrun Hfresh c Hc)
      as (a & rf & Ha & Hrf & Hres).
    rewrite Hq in Ha. rewrite Href in Hrf. inversion Ha; inversion Hrf; subst a rf.
    exists (zip_with fsub q p). split; [exact Hres|].
    now apply sub_equal_is_zero. }
  split; [|exact Hgen].
  intros Hin. apply (Hgen _ p Hin Href). apply series_eq_refl.
Qed.

Lemma reference_relative_phase_zero_witness :
  let g' := snd (normalize_loop (phase_angle_cols twin_stations_derived)
                                twin_stations_derived) in
  (exists z, get_col "DE_Ostrhauderfehn:Phase_rel" (df g') = Some (Floats z)
             /\ List.length z = 3%nat /\ Forall is_zero z)
  /\ (exists z, get_col "ES_Madrid:Phase_rel" (df g') = Some (Floats z)
                /\ List.length z = 3%nat /\ Forall is_zero z).
Proof.
  intros g'.
  assert (Hfresh : forall c, In c (phase_angle_cols twin_stations_derived) ->
            ~ In (c ++ "_rel")
                 (reference_station twin_stations_derived
                    :: phase_angle_cols twin_stations_derived)).
  { intros c [<-|[<-|[]]] [H|[H|[H|[]]]]; discriminate. }
  destruct (reference_relative_phase_zero
              (phase_angle_cols twin_stations_derived) twin_stations_derived g'
              _ eq_refl Hfresh eq_refl eq_refl) as [Href Htwin].
  split.
  - apply Href. left. reflexivity.
  - apply (Htwin "ES_Madrid:Phase" _ (or_intror (or_introl eq_refl)) eq_refl).
    apply series_eq_refl.
Defined.

(** ** The derivation loop *)

Lemma derive_loop_cons (rocof : bool) (col : string) (rest : list string) (g : globals) :
  derive_loop rocof (col :: rest) g =
    match compute_phase_angle (df g) col nominal_default with
    | inl e => (inl e, g)
    | inr phase =>
        let g1 := mkGlobals (set_col (phase_name col) (Floats phase) (df g))
                            (frequency_columns g)
                            (phase_angle_cols g ++ [phase_name col])
                            (reference_station g) in
        if rocof then
          match rocof_series (df g1) col with
          | inl e => (inl e, g1)
          | inr r =>
              derive_loop rocof rest
                          (with_df (set_col (rocof_name col) (Floats r) (df g1)) g1)
          end
        else derive_loop rocof rest g1
    end.
Proof.
  cbn [derive_loop].
  unfold bind, get_df, lift, setitem, put_phase_angle_cols, with_df, ret,
    phase_name, rocof_name.
  destruct (compute_phase_angle (df g) col nominal_default); [reflexivity|].
  destruct rocof; [|reflexivity].
  cbn [df frequency_columns phase_angle_cols reference_station].
  match goal with |- context [rocof_series ?d ?c] => destruct (rocof_series d c) end;
    reflexivity.
Qed.

(** The loop writes only phase and RoCoF columns of its stations, and
    records only their phase columns. *)
Lemma derive_loop_frame (rocof : bool) (cols : list string) :
  forall g r g',
    derive_loop rocof cols g = (r, g') ->
    frequency_columns g' = frequency_columns g
    /\ reference_station g' = reference_station g
    /\ (forall k, (forall c, In c cols -> phase_name c <> k /\ rocof_name c <> k) ->
                  get_col k (df g') = get_col k (df g))
    /\ (forall k, get_col k (df g) <> None -> get_col k (df g') <> None)
    /\ (forall p, In p (phase_angle_cols g') ->
                  In p (phase_angle_cols g) \/ exists c, In c cols /\ p = phase_name c).
Proof.
  induction cols as [|col rest IH]; intros g r g' H.
  - inversion H; subst. repeat split; auto.
  - rewrite derive_loop_cons in H.
    destruct (compute_phase_angle (df g) col nominal_default) as [e|phase].
    { inversion H; subst. repeat split; auto. }
    cbv zeta in H.
    set (g1 := mkGlobals _ _ _ _) in H.
    assert (H1 : frequency_columns g1 = frequency_columns g
                 /\ reference_station g1 = reference_station g
                 /\ (forall k, phase_name col <> k ->
                               get_col k (df g1) = get_col k (df g))
                 /\ (forall k, get_col k (df g) <> None -> get_col k (df g1) <> None)
                 /\ (forall p, In p (phase_angle_cols g1) ->
                               In p (phase_angle_cols g) \/ p = phase_name col)).
    { subst g1. cbn. repeat split; auto.
      - intros k Hk. now apply get_set_other.
      - intros k Hk. now apply set_col_present.
      - intros p Hp. apply in_app_or in Hp as [Hp|[Hp|[]]]; auto. }
    destruct H1 as (Hf1 & Hr1 & Hk1 & Hp1 & Hc1).
    assert (Hrest : forall g2 r2 g2',
              derive_loop rocof rest g2 = (r2, g2') ->
              frequency_columns g2 = frequency_columns g ->
              reference_station g2 = reference_station g ->
              (forall k, phase_name col <> k /\ rocof_name col <> k ->
                         get_col k (df g2) = get_col k (df g)) ->
              (forall k, get_col k (df g) <> None -> get_col k (df g2) <> None) ->
              (forall p, In p (phase_angle_cols g2) ->
                         In p (phase_angle_cols g) \/ p = phase_name col) ->
              frequency_columns g2' = frequency_columns g
              /\ reference_station g2' = reference_station g
              /\ (forall k, (forall c, In c (col :: rest) ->
                                       phase_name c <> k /\ rocof_name c <> k) ->
                            get_col k (df g2') = get_col k (df g))
              /\ (forall k, get_col k (df g) <> None -> get_col k (df g2') <> None)
              /\ (forall p, In p (phase_angle_cols g2') ->
                            In p (phase_angle_cols g)
                            \/ exists c, In c (col :: rest) /\ p = phase_name c)).
    { intros g2 r2 g2' H2 Hf2 Hr2 Hk2 Hp2 Hc2.
      apply IH in H2 as (Hf & Hr & Hk & Hp & Hc).
      repeat split; try congruence.
      - intros k Hne. rewrite Hk by (intros c Hc'; apply Hne; now right).
        apply Hk2. apply Hne. now left.
      - intros k Hk0. auto.
      - intros p Hp'. apply Hc in Hp' as [Hp'|(c & Hc' & ->)].
        + apply Hc2 in Hp' as [Hp'| ->]; auto.
          right. exists col. split; auto. now left.
        + right. exists c. split; auto. now right. }
    destruct rocof.
    + destruct (rocof_series (df g1) col) as [e|rc].
      * inversion H; subst. repeat split; auto.
        -- intros k Hne. apply Hk1. apply (Hne col). now left.
        -- intros p Hp. apply Hc1 in Hp as [Hp| ->]; auto.
           right. exists col. split; auto. now left.
      * eapply Hrest; [exact H| | | | |]; cbn; auto.
        -- intros k [Hk Hk']. rewrite get_set_other by exact Hk'. now apply Hk1.
        -- intros k Hk. apply set_col_present. auto.
    + eapply Hrest; [exact H| | | | |]; auto.
      intros k [Hk _]. now apply Hk1.
Qed.

(** ** The module body *)

Lemma load_and_derive_unfold (rocof : bool) (f : file) (g : globals) :
  load_and_derive rocof f g =
    match read_csv f with
    | inl e => (inl e, g)
    | inr d =>
        match frame_getitem d "Timestamp" with
        | inl e => (inl e, with_df d g)
        | inr ts =>
            match to_datetime ts with
            | inl e => (inl e, with_df d g)
            | inr ts' =>
                let d1 := set_col "Timestamp" ts' d in
                let fcols := filter (str_in "Frequency") (headers d1) in
                derive_loop rocof fcols (mkGlobals d1 fcols [] (reference_station g))
            end
        end
    end.
Proof.
  unfold load_and_derive, bind, lift, put_df, getitem, setitem, get_df,
    put_frequency_columns, put_phase_angle_cols, with_df.
  destruct (read_csv f) as [e|d]; [reflexivity|].
  cbn [df frequency_columns phase_angle_cols reference_station].
  destruct (frame_getitem d "Timestamp") as [e|ts]; [reflexivity|].
  destruct (to_datetime ts); reflexivity.
Qed.

Lemma module_body_unfold (rocof : bool) (f : file) (g : globals) :
  module_body rocof f g =
    match load_and_derive rocof f g with
    | (inl e, s) => (inl e, s)
    | (inr _, s) =>
        normalize_loop (phase_angle_cols s)
          (mkGlobals (df s) (frequency_columns s) (phase_angle_cols s)
                     "DE_Ostrhauderfehn:Phase")
    end.
Proof.
  unfold module_body, normalize, bind, put_reference_station.
  destruct (load_and_derive rocof f g) as [[e|u] s]; reflexivity.
Qed.

Lemma set_col_headers (k : string) (c c' : column) (d : frame) :
  get_col k d = Some c' -> headers (set_col k c d) = headers d.
Proof.
  unfold headers. induction d as [|[k0 x] d IH]; simpl; [discriminate|].
  destruct (String.eqb k0 k); simpl; auto.
  intros H. now rewrite IH.
Qed.

Lemma read_table_headers (t : list (string * raw_column)) :
  headers (read_table t) = map fst t.
Proof. unfold headers, read_table. rewrite map_map. reflexivity. Qed.

(** C6, as stated, fails: a well-formed file with a [Timestamp] column and
    no header carrying the marker [Frequency] loads without any error,
    with an empty list of stations. *)
Lemma load_without_stations_counterexample :
  filter (str_in "Frequency") ["Timestamp"; "PT_Porto:Voltage"] = []
  /\ fst (main_py no_station_file fresh_globals) = inr tt
  /\ frequency_columns (snd (main_py no_station_file fresh_globals)) = [].
Proof. repeat split; reflexivity. Qed.

(** C6 (amended): loading raises when the file is missing
    ([FileNotFoundError]) or unparsable ([ParserError]), the table and
    the other globals untouched; a file that has a [Timestamp] column and
    no header with the marker [Frequency] loads without error: the list of
    stations is empty and the table is the file's, with no derived
    column. *)
Theorem load_errors_and_empty_discovery (rocof : bool) (g : globals) :
  module_body rocof Absent g = (inl FileNotFoundError, g)
  /\ module_body rocof Unparsable g = (inl ParserError, g)
  /\ (forall t ts,
        get_col "Timestamp" (read_table t) = Some (Stamps ts) ->
        filter (str_in "Frequency") (map fst t) = [] ->
        module_body rocof (Csv t) g
        = (inr tt, mkGlobals (read_table t) [] [] "DE_Ostrhauderfehn:Phase")).
Proof.
  split; [reflexivity|]. split; [reflexivity|].
  intros t ts Hts Hnone.
  rewrite module_body_unfold, load_and_derive_unfold.
  cbn [read_csv]. fold (read_table t).
  unfold frame_getitem. rewrite Hts. cbn [to_datetime]. cbv zeta.
  rewrite (set_col_headers _ _ _ _ Hts), read_table_headers, Hnone.
  rewrite (set_col_unchanged _ _ _ Hts). reflexivity.
Qed.

Lemma load_errors_and_empty_discovery_witness :
  module_body true no_station_file fresh_globals
  = (inr tt,
     mkGlobals
       [("Timestamp", Stamps [0; 1000000000]%Z);
        ("PT_Porto:Voltage", Floats [Fin 230.1; Fin 229.8])]
       [] [] "DE_Ostrhauderfehn:Phase").
Proof.
  apply (proj2 (proj2 (load_errors_and_empty_discovery true fresh_globals))
           [("Timestamp", Instants [0; 1000000000]%Z);
            ("PT_Porto:Voltage", Numbers [Some 230.1; Some 229.8])]
           [0; 1000000000]%Z);
    reflexivity.
Defined.

(** ** The query interface *)

Lemma graph_loop_cons (mode : string) (i : nat) (s : string) (rest : list string)
    (traces : list trace) (title : option string) (g : globals) :
  graph_loop mode i (s :: rest) traces title g =
    match frame_getitem (df g) "Timestamp" with
    | inl e => (inl e, g)
    | inr x =>
        match frame_getitem (df g) (fst (projected_column mode s)) with
        | inl e => (inl e, g)
        | inr y =>
            graph_loop mode (S i) rest (traces ++ [station_trace mode i s x y])
                       (Some (snd (projected_column mode s))) g
        end
    end.
Proof.
  cbn [graph_loop]. destruct (projected_column mode s) as [col_name t].
  unfold bind, getitem, station_trace. cbn [fst snd].
  destruct (frame_getitem (df g) "Timestamp"); [reflexivity|].
  destruct (frame_getitem (df g) col_name); reflexivity.
Qed.

(** The callback only reads the globals. *)
Lemma graph_loop_state (mode : string) (stations : list string) :
  forall i traces title g, snd (graph_loop mode i stations traces title g) = g.
Proof.
  induction stations as [|s rest IH]; intros i traces title g; [reflexivity|].
  rewrite graph_loop_cons.
  destruct (frame_getitem (df g) "Timestamp"); [reflexivity|].
  destruct (frame_getitem (df g) (fst (projected_column mode s))); [reflexivity|].
  apply IH.
Qed.

Lemma graph_loop_failure (mode : string) (x : column) (g : globals)
    (s : string) (post : list string) :
  get_col "Timestamp" (df g) = Some x ->
  get_col (fst (projected_column mode s)) (df g) = None ->
  forall pre i traces title,
    (forall s', In s' pre -> get_col (fst (projected_column mode s')) (df g) <> None) ->
    fst (graph_loop mode i (pre ++ s :: post) traces title g)
    = inl (KeyError (fst (projected_column mode s))).
Proof.
  intros Hx Hs. induction pre as [|s0 pre IH]; intros i traces title Hpre.
  - cbn [app]. rewrite graph_loop_cons. unfold frame_getitem. now rewrite Hx, Hs.
  - cbn [app]. rewrite graph_loop_cons. unfold frame_getitem. rewrite Hx.
    destruct (get_col (fst (projected_column mode s0)) (df g)) eqn:E.
    + apply IH. intros s' Hs'. apply Hpre. now right.
    + exfalso. apply (Hpre s0); [now left|exact E].
Qed.

Lemma graph_loop_success (mode : string) (x : column) (g : globals) :
  get_col "Timestamp" (df g) = Some x ->
  forall stations i traces title,
    (forall s, In s stations -> get_col (fst (projected_column mode s)) (df g) <> None) ->
    exists trs title',
      fst (graph_loop mode i stations traces title g) = inr ((traces ++ trs)%list, title')
      /\ map (fun t => Some (trace_y t)) trs
         = map (fun s => get_col (fst (projected_column mode s)) (df g)) stations
      /\ (stations = [] -> title' = title)
      /\ (stations <> [] -> title' <> None).
Proof.
  intros Hx. induction stations as [|s rest IH]; intros i traces title Hall.
  - exists [], title. cbn. rewrite app_nil_r. repeat split; auto.
  - rewrite graph_loop_cons. unfold frame_getitem. rewrite Hx.
    destruct (get_col (fst (projected_column mode s)) (df g)) as [y|] eqn:E.
    + destruct (IH (S i) (traces ++ [station_trace mode i s x y])%list
                   (Some (snd (projected_column mode s))))
        as (trs & title' & Hrun & Hys & Hnil & Hcons).
      { intros s' Hs'. apply Hall. now right. }
      exists (station_trace mode i s x y :: trs), title'.
      rewrite Hrun, <- app_assoc. cbn [app map trace_y station_trace].
      rewrite Hys, E. repeat split; auto; try congruence.
      intros _. destruct rest as [|s1 rest].
      * rewrite Hnil by reflexivity. discriminate.
      * apply Hcons. discriminate.
    + exfalso. apply (Hall s); [now left|exact E].
Qed.

Lemma update_graph_unfold (stations : list string) (mode : string) (g : globals) :
  update_graph stations mode g =
    match fst (graph_loop mode 0 stations [] None g) with
    | inl e => (inl e, g)
    | inr (traces, None) => (inl (UnboundLocalError "yaxis_title"), g)
    | inr (traces, Some title) =>
        (inr (mkFigure traces (mode ++ " over Time") title
                       (if String.eqb mode "Frequency" then frequency_shapes else [])),
         g)
    end.
Proof.
  unfold update_graph, bind, raise, ret.
  pose proof (graph_loop_state mode stations 0 [] None g) as Hs.
  destruct (graph_loop mode 0 stations [] None g) as [[e|[traces [title|]]] g'];
    cbn in Hs |- *; now subst g'.
Qed.

(** C7, as stated, fails: an identifier that is not a discovered station
    but is the header of some column of the table (here a derived phase
    column, in the Frequency view) is served, not rejected. *)
Lemma unknown_station_served_counterexample :
  ~ In "DE_Ostrhauderfehn:Phase" (frequency_columns sample_globals)
  /\ exists fig,
       fst (update_graph ["DE_Ostrhauderfehn:Phase"] "Frequency" sample_globals)
       = inr fig
       /\ List.length (fig_data fig) = 1%nat.
Proof.
  split.
  - intros [H|[H|[]]]; discriminate.
  - eexists. split; reflexivity.
Qed.

(** C7 (amended): a query never changes the globals; it raises the
    [KeyError] of the table lookup at the first selected identifier whose
    column for the requested view is not in the table; and when every
    selected identifier has its column (discovered station or not) and the
    selection is not empty, it returns one trace per identifier, in the
    order of the selection, holding that column. *)
Theorem update_graph_lookup_and_state
    (g : globals) (stations : list string) (mode : string) :
  snd (update_graph stations mode g) = g
  /\ (forall x pre s post,
        get_col "Timestamp" (df g) = Some x ->
        stations = (pre ++ s :: post)%list ->
        (forall s', In s' pre ->
                    get_col (fst (projected_column mode s')) (df g) <> None) ->
        get_col (fst (projected_column mode s)) (df g) = None ->
        fst (update_graph stations mode g)
        = inl (KeyError (fst (projected_column mode s))))
  /\ (forall x,
        get_col "Timestamp" (df g) = Some x ->
        stations <> [] ->
        (forall s, In s stations ->
                   get_col (fst (projected_column mode s)) (df g) <> None) ->
        exists fig,
          fst (update_graph stations mode g) = inr fig
          /\ map (fun t => Some (trace_y t)) (fig_data fig)
             = map (fun s => get_col (fst (projected_column mode s)) (df g)) stations).
Proof.
  split; [|split].
  - rewrite update_graph_unfold.
    destruct (fst (graph_loop mode 0 stations [] None g)) as [e|[traces [title|]]];
      reflexivity.
  - intros x pre s post Hx -> Hpre Hs.
    rewrite update_graph_unfold.
    now rewrite (graph_loop_failure mode x g s post Hx Hs pre 0 [] None Hpre).
  - intros x Hx Hne Hall.
    destruct (graph_loop_success mode x g Hx stations 0 [] None Hall)
      as (trs & title' & Hrun & Hys & _ & Hcons).
    rewrite update_graph_unfold, Hrun. cbn [app].
    destruct title' as [title|]; [|now specialize (Hcons Hne)].
    eexists. split; [reflexivity|exact Hys].
Qed.

Lemma update_graph_lookup_and_state_witness :
  snd (update_graph ["DE_Ostrhauderfehn:Frequency"; "FR_Paris:Frequency"] "RoCoF"
                    sample_globals) = sample_globals
  /\ fst (update_graph ["DE_Ostrhauderfehn:Frequency"; "FR_Paris:Frequency"] "RoCoF"
                       sample_globals) = inl (KeyError "FR_Paris:RoCoF")
  /\ exists fig,
       fst (update_graph ["ES_Madrid:Frequency"] "Frequency" sample_globals) = inr fig
       /\ map (fun t => Some (trace_y t)) (fig_data fig)
          = [Some (Floats [NaN; Fin 50.10; NaN])].
Proof.
  split; [|split].
  - apply (update_graph_lookup_and_state sample_globals).
  - apply (proj1 (proj2 (update_graph_lookup_and_state
                           sample_globals
                           ["DE_Ostrhauderfehn:Frequency"; "FR_Paris:Frequency"]
                           "RoCoF"))
             (Stamps [0; 1000000000; 2000000000]%Z)
             ["DE_Ostrhauderfehn:Frequency"] "FR_Paris:Frequency" []).
    + reflexivity.
    + reflexivity.
    + intros s' [<-|[]]. discriminate.
    + reflexivity.
  - apply (proj2 (proj2 (update_graph_lookup_and_state
                           sample_globals ["ES_Madrid:Frequency"] "Frequency"))
             (Stamps [0; 1000000000; 2000000000]%Z)).
    + reflexivity.
    + discriminate.
    + intros s [<-|[]]. discriminate.
Defined.

(** ** The frequency columns are never written *)



Lemma module_body_success
    (rocof : bool) (t : list (string * raw_column)) (g g' : globals) :
  module_body rocof (Csv t) g = (inr tt, g') ->
  get_col "Timestamp" (df g') <> None
  /\ frequency_columns g' = filter (str_in "Frequency") (map fst t).
Proof.
  intros Hrun.
  rewrite module_body_unfold, load_and_derive_unfold in Hrun.
  cbn [read_csv] in Hrun. fold (read_table t) in Hrun.
  destruct (frame_getitem (read_table t) "Timestamp") as [e|ts] eqn:Ets;
    [discriminate|].
  destruct (to_datetime ts) as [e|ts'] eqn:Edt; [discriminate|].
  cbv zeta in Hrun. apply frame_getitem_inr in Ets.
  rewrite (set_col_headers _ _ _ _ Ets), read_table_headers in Hrun.
  set (fcols := filter (str_in "Frequency") (map fst t)) in Hrun.
  set (g1 := mkGlobals _ fcols [] _) in Hrun.
  destruct (derive_loop rocof fcols g1) as [r1 s] eqn:Ed.
  apply derive_loop_frame in Ed as (Hf & _ & _ & Hpres & _).
  destruct r1 as [e|u]; [discriminate|].
  apply normalize_loop_frame in Hrun as (Hf' & _ & _ & _ & Hpres').
  cbn in Hf', Hpres'. split.
  - apply Hpres', Hpres. subst g1. cbn. rewrite get_set_same. discriminate.
  - now rewrite Hf', Hf.
Qed.



(** ** Reloading *)

(** The derivation loop reads and writes the table and the list of phase
    columns only. *)
Lemma derive_loop_prior (rocof : bool) (cols : list string) :
  forall g1 g2,
    df g1 = df g2 ->
    frequency_columns g1 = frequency_columns g2 ->
    phase_angle_cols g1 = phase_angle_cols g2 ->
    fst (derive_loop rocof cols g1) = fst (derive_loop rocof cols g2)
    /\ df (snd (derive_loop rocof cols g1)) = df (snd (derive_loop rocof cols g2))
    /\ frequency_columns (snd (derive_loop rocof cols g1))
       = frequency_columns (snd (derive_loop rocof cols g2))
    /\ phase_angle_cols (snd (derive_loop rocof cols g1))
       = phase_angle_cols (snd (derive_loop rocof cols g2)).
Proof.
  induction cols as [|col rest IH]; intros g1 g2 Hd Hf Hp.
  - cbn. auto.
  - rewrite !derive_loop_cons. rewrite Hd, Hf, Hp.
    destruct (compute_phase_angle (df g2) col nominal_default) as [e|phase];
      [cbn; auto|].
    cbv zeta. destruct rocof.
    + cbn [df]. destruct (rocof_series _ col) as [e|rc]; [cbn; auto|].
      apply IH; reflexivity.
    + apply IH; reflexivity.
Qed.

Lemma load_and_derive_prior (rocof : bool) (f : file) (g1 g2 : globals) :
  fst (load_and_derive rocof f g1) = fst (load_and_derive rocof f g2)
  /\ ((exists d, read_csv f = inr d) ->
      df (snd (load_and_derive rocof f g1)) = df (snd (load_and_derive rocof f g2)))
  /\ (fst (load_and_derive rocof f g1) = inr tt ->
      df (snd (load_and_derive rocof f g1)) = df (snd (load_and_derive rocof f g2))
      /\ frequency_columns (snd (load_and_derive rocof f g1))
      = frequency_columns (snd (load_and_derive rocof f g2))
      /\ phase_angle_cols (snd (load_and_derive rocof f g1))
         = phase_angle_cols (snd (load_and_derive rocof f g2))).
Proof.
  rewrite !load_and_derive_unfold.
  destruct (read_csv f) as [e|d].
  { cbn. repeat split; try discriminate. intros [d H]. discriminate. }
  destruct (frame_getitem d "Timestamp") as [e|ts].
  { cbn. repeat split; discriminate. }
  destruct (to_datetime ts) as [e|ts'].
  { cbn. repeat split; discriminate. }
  cbv zeta.
  set (d1 := set_col "Timestamp" ts' d).
  set (fcols := filter (str_in "Frequency") (headers d1)).
  destruct (derive_loop_prior rocof fcols
              (mkGlobals d1 fcols [] (reference_station g1))
              (mkGlobals d1 fcols [] (reference_station g2))
              eq_refl eq_refl eq_refl) as (H1 & H2 & H3 & H4).
  auto.
Qed.

(** C9: running the whole pipeline on the same input file again gives the
    same derived series: the outcome of the module body, the table once
    the file has been read and, on success, every global it leaves do not
    depend on the globals it starts from, be they those of a fresh
    interpreter or those an earlier load has left (nothing leaks from one
    load into the next). *)
Theorem reload_is_deterministic (rocof : bool) (f : file) (g1 g2 : globals) :
  fst (module_body rocof f g1) = fst (module_body rocof f g2)
  /\ ((exists d, read_csv f = inr d) ->
      df (snd (module_body rocof f g1)) = df (snd (module_body rocof f g2)))
  /\ (fst (module_body rocof f g1) = inr tt ->
      snd (module_body rocof f g1) = snd (module_body rocof f g2)).
Proof.
  rewrite !module_body_unfold.
  destruct (load_and_derive_prior rocof f g1 g2) as (Hr & Hd & Hg).
  destruct (load_and_derive rocof f g1) as [[e1|u1] s1];
    destruct (load_and_derive rocof f g2) as [[e2|u2] s2];
    cbn [fst snd] in Hr, Hd, Hg; try discriminate.
  - cbn [fst snd]. repeat split; auto. discriminate.
  - destruct u1. destruct (Hg eq_refl) as (Hdf & Hf & Hp).
    rewrite Hdf, Hf, Hp. auto.
Qed.

Lemma reload_is_deterministic_witness :
  fst (main_py sample_file stale_globals) = fst (main_py sample_file fresh_globals)
  /\ snd (main_py sample_file stale_globals) = sample_globals
  /\ snd (main_py sample_file sample_globals) = sample_globals.
Proof.
  split; [|split].
  - apply (reload_is_deterministic true sample_file stale_globals fresh_globals).
  - apply (proj2 (proj2 (reload_is_deterministic
                           true sample_file stale_globals fresh_globals))).
    reflexivity.
  - apply (proj2 (proj2 (reload_is_deterministic
                           true sample_file sample_globals fresh_globals))).
    reflexivity.
Defined.

(** ** When the phase has no missing cell *)

Lemma cumsum_from_finite (l : list float) :
  forall acc, is_finite acc = true -> forallb is_finite l = true ->
              forallb is_finite (cumsum_from acc l) = true.
Proof.
  induction l as [|x l IH]; intros acc Ha Hl; simpl in *; auto.
  apply andb_true_iff in Hl as [Hx Hl].
  destruct acc, x; try discriminate. simpl. now apply IH.
Qed.

Lemma np_cumsum_finite (l : list float) :
  forallb is_finite l = true -> forallb is_finite (np_cumsum l) = true.
Proof.
  destruct l as [|x l]; simpl; auto. intros H.
  apply andb_true_iff in H as [Hx Hl]. rewrite Hx. simpl.
  now apply cumsum_from_finite.
Qed.

Lemma zip_fmul_finite (xs : list float) :
  forall ys, forallb is_finite xs = true -> forallb is_finite ys = true ->
             forallb is_finite (zip_with fmul xs ys) = true.
Proof.
  induction xs as [|x xs IH]; intros [|y ys] Hx Hy; simpl in *; auto.
  apply andb_true_iff in Hx as [Hx Hxs]. apply andb_true_iff in Hy as [Hy Hys].
  destruct x, y; try discriminate. simpl. now apply IH.
Qed.

Lemma map_finite (f : float -> float) (l : list float) :
  (forall x, is_finite x = true -> is_finite (f x) = true) ->
  forallb is_finite l = true -> forallb is_finite (map f l) = true.
Proof.
  intros Hf. induction l as [|x l IH]; simpl; auto.
  intros H. apply andb_true_iff in H as [Hx Hl]. now rewrite Hf, IH.
Qed.

(** A station with at least one measurement has a phase without missing
    or infinite cells: the condition under which its relative phase can
    be zero. *)
Lemma phase_finite_of_measured
    (d : frame) (col : string) (nominal : Q) (ts : list Z) (xs : list (option Q))
    (phase : list float) :
  get_col "Timestamp" d = Some (Stamps ts) ->
  get_col col d = Some (Floats (map of_raw xs)) ->
  (exists q, In (Some q) xs) ->
  compute_phase_angle d col nominal = inr phase ->
  forallb is_finite phase = true.
Proof.
  intros Hts Hcol Hvalid Hrun.
  destruct ts as [|t0 ts].
  - unfold compute_phase_angle, frame_getitem in Hrun.
    rewrite Hts, Hcol in Hrun. discriminate.
  - rewrite (compute_phase_angle_unfold _ _ _ _ _ _ Hts Hcol) in Hrun.
    inversion Hrun; subst phase.
    apply np_cumsum_finite, zip_fmul_finite.
    + apply map_finite; [now destruct x|].
      apply map_finite; [now destruct x|].
      now apply gap_fill_raw_finite.
    + apply diff_from_finite; [reflexivity|apply seconds_finite].
Qed.

(** ** The header conventions at work *)

Example timestamp_is_no_station : str_in "Frequency" "Timestamp" = false.
Proof. reflexivity. Qed.

Example phase_header :
  phase_name "DE_Ostrhauderfehn:Frequency" = "DE_Ostrhauderfehn:Phase".
Proof. reflexivity. Qed.

Example rocof_header :
  rocof_name "DE_Ostrhauderfehn:Frequency" = "DE_Ostrhauderfehn:RoCoF".
Proof. reflexivity. Qed.

Example label_of_station :
  replace ":Frequency" EmptyString "DE_Ostrhauderfehn:Frequency" = "DE_Ostrhauderfehn".
Proof. reflexivity. Qed.

(** A derived name can carry the marker when a header repeats letters of
    it: the case [derived_names_fresh] excludes. *)
Example marker_rebuilt_by_substitution :
  rocof_name "Frequencyrequency" = "RoCoFrequency"
  /\ derived_names_fresh ["Timestamp"; "Frequencyrequency"] = false.
Proof. split; reflexivity. Qed.

Example conventional_headers_are_fresh :
  derived_names_fresh
    ["Timestamp"; "DE_Ostrhauderfehn:Frequency"; "ES_Madrid:Frequency"] = true.
Proof. reflexivity. Qed.

(** Interior gaps are interpolated over the positions, a leading gap takes
    the first value, a trailing gap the last. *)
Example gap_fill_sample :
  series_eq (gap_fill [NaN; Fin 1; NaN; NaN; Fin 4; NaN; NaN])
            [Fin 1; Fin 1; Fin 2; Fin 3; Fin 4; Fin 4; Fin 4].
Proof. repeat constructor; vm_compute; reflexivity. Qed.

(** Colliding timestamps: the quotient is an infinity, or [NaN] for [0/0]. *)
Example rocof_at_colliding_timestamps :
  rocof_series [("Timestamp", Stamps [0; 0; 0]%Z);
                ("PT_Porto:Frequency", Floats [Fin 50.0; Fin 50.1; Fin 50.1])]
               "PT_Porto:Frequency"
  = inr [NaN; Inf false; NaN].
Proof. reflexivity. Qed.

(** An empty table: [timestamps.iloc[0]] raises. *)
Example phase_of_empty_table :
  compute_phase_angle [("Timestamp", Stamps []); ("PT_Porto:Frequency", Floats [])]
                      "PT_Porto:Frequency" nominal_default
  = inl IndexError.
Proof. reflexivity. Qed.

(** An empty selection leaves [yaxis_title] unbound. *)
Example empty_selection :
  fst (update_graph [] "Frequency" sample_globals)
  = inl (UnboundLocalError "yaxis_title").
Proof. reflexivity. Qed.

(** * Further properties *)

(** ** Gap filling: what fills each kind of gap *)

Lemma interpolate_from_app_valid (x : float) (rest : list float) :
  isna x = false ->
  forall pre prev k,
    exists filled,
      List.length filled = List.length pre
      /\ interpolate_from prev k (pre ++ x :: rest)
         = (filled ++ x :: interpolate_from x 1 rest)%list.
Proof.
  intros Hx. induction pre as [|y pre IH]; intros prev k.
  - exists []. cbn. now rewrite Hx.
  - cbn [app interpolate_from]. destruct (isna y).
    + destruct (IH prev (S k)) as (filled & Hl & ->).
      eexists (_ :: filled). cbn. split; [now rewrite Hl|reflexivity].
    + destruct (IH y 1%nat) as (filled & Hl & ->).
      exists (y :: filled). cbn. split; [now rewrite Hl|reflexivity].
Qed.

Lemma interpolate_app_valid (x : float) (rest : list float) :
  isna x = false ->
  forall pre,
    exists filled,
      List.length filled = List.length pre
      /\ interpolate (pre ++ x :: rest)
         = (filled ++ x :: interpolate_from x 1 rest)%list.
Proof.
  intros Hx. induction pre as [|y pre IH].
  - exists []. cbn. now rewrite Hx.
  - cbn [app interpolate]. destruct (isna y).
    + destruct IH as (filled & Hl & ->).
      exists (y :: filled). cbn. split; [now rewrite Hl|reflexivity].
    + destruct (interpolate_from_app_valid x rest Hx pre y 1%nat)
        as (filled & Hl & ->).
      exists (y :: filled). cbn. split; [now rewrite Hl|reflexivity].
Qed.


Lemma next_valid_none (m : nat) : next_valid (repeat NaN m) = None.
Proof. induction m as [|m IH]; cbn; [reflexivity|now rewrite IH]. Qed.


Lemma interpolate_from_trailing (a : float) (m : nat) :
  forall k, interpolate_from a k (repeat NaN m) = repeat a m.
Proof.
  induction m as [|m IH]; intros k; cbn; [reflexivity|].
  now rewrite next_valid_none, IH.
Qed.





Lemma interpolate_leading (m : nat) (x : float) (rest : list float) :
  isna x = false ->
  interpolate (repeat NaN m ++ x :: rest)
  = (repeat NaN m ++ x :: interpolate_from x 1 rest)%list.
Proof.
  intros Hx. induction m as [|m IH]; cbn.
  - now rewrite Hx.
  - now rewrite IH.
Qed.

Lemma bfill_leading (m : nat) (x : float) (tail : list float) :
  isna x = false ->
  bfill (repeat NaN m ++ x :: tail) = (repeat x m ++ x :: bfill tail)%list.
Proof.
  intros Hx. induction m as [|m IH].
  - cbn. now rewrite Hx.
  - cbn [repeat app bfill isna]. rewrite IH. now destruct m.
Qed.

Lemma nth_error_repeat_cons {A} (x : A) (m : nat) (tail : list A) (j : nat) :
  (j <= m)%nat -> nth_error (repeat x m ++ x :: tail) j = Some x.
Proof.
  revert j. induction m as [|m IH]; intros j Hj.
  - now replace j with 0%nat by lia.
  - destruct j as [|j]; [reflexivity|]. cbn. apply IH. lia.
Qed.

Lemma nth_error_cons_repeat {A} (x : A) (m j : nat) :
  (j <= m)%nat -> nth_error (x :: repeat x m) j = Some x.
Proof.
  revert j. induction m as [|m IH]; intros j Hj.
  - now replace j with 0%nat by lia.
  - destruct j as [|j]; [reflexivity|]. cbn [nth_error repeat]. apply IH. lia.
Qed.

(** X2: a gap at the start takes the first valid value: backward fill, as
    [interpolate] leaves leading gaps alone. *)
Theorem gap_fill_leading_gap
    (m : nat) (x : float) (rest : list float) (j : nat)
    (Hx : isna x = false) (Hj : (j <= m)%nat) :
  nth_error (gap_fill (repeat NaN m ++ x :: rest)) j = Some x.
Proof.
  unfold gap_fill, ffill.
  apply (keeps_nth_error _ _ (ffill_from_keeps _ _)); [|exact Hx].
  rewrite (interpolate_leading m x rest Hx), (bfill_leading m x _ Hx).
  now apply nth_error_repeat_cons.
Qed.

Lemma gap_fill_leading_gap_witness :
  nth_error (gap_fill (repeat NaN 3 ++ Fin 49.9 :: [NaN; Fin 50.1])) 2
  = Some (Fin 49.9).
Proof.
  apply (gap_fill_leading_gap 3 (Fin 49.9) [NaN; Fin 50.1] 2); [reflexivity|lia].
Defined.

(** X3: a gap at the end takes the last valid value: [interpolate] already
    repeats it there, and the two fills keep it. *)
Theorem gap_fill_trailing_gap
    (pre : list float) (x : float) (m j : nat)
    (Hx : isna x = false) (Hj : (j <= m)%nat) :
  nth_error (gap_fill (pre ++ x :: repeat NaN m)) (List.length pre + j) = Some x.
Proof.
  apply (keeps_nth_error _ _ (keeps_trans _ _ _ (bfill_keeps _) (ffill_from_keeps _ _)));
    [|exact Hx].
  destruct (interpolate_app_valid x (repeat NaN m) Hx pre) as (filled & Hl & ->).
  rewrite interpolate_from_trailing, <- Hl.
  rewrite nth_error_app2 by lia.
  replace (List.length filled + j - List.length filled)%nat with j by lia.
  now apply nth_error_cons_repeat.
Qed.

Lemma gap_fill_trailing_gap_witness :
  nth_error (gap_fill ([NaN; Fin 50.0] ++ Fin 50.3 :: repeat NaN 2)) (2 + 2)
  = Some (Fin 50.3).
Proof.
  apply (gap_fill_trailing_gap [NaN; Fin 50.0] (Fin 50.3) 2 2); [reflexivity|lia].
Defined.

Lemma raw_valid_or_missing (xs : list (option Q)) :
  (exists q, In (Some q) xs) \/ map of_raw xs = repeat NaN (List.length xs).
Proof.
  induction xs as [|[q|] xs IH].
  - right. reflexivity.
  - left. exists q. now left.
  - destruct IH as [[q H]|H].
    + left. exists q. now right.
    + right. cbn. now rewrite H.
Qed.

(** X4: on measured data the chain is idempotent: filling a filled series
    changes nothing, so it does not matter that the source runs the
    chain once for the phase and once more for the RoCoF. *)
Theorem gap_fill_idempotent (xs : list (option Q)) :
  gap_fill (gap_fill (map of_raw xs)) = gap_fill (map of_raw xs).
Proof.
  destruct (raw_valid_or_missing xs) as [H|H].
  - apply gap_fill_finite. now apply gap_fill_raw_finite.
  - rewrite H. now rewrite !gap_fill_all_missing.
Qed.

(** ** The integrator and the differentiator, cell by cell *)




Lemma rocof_series_unfold
    (d : frame) (col : string) (t0 : Z) (ts : list Z) (xs : list float) :
  get_col "Timestamp" d = Some (Stamps (t0 :: ts)) ->
  get_col col d = Some (Floats xs) ->
  rocof_series d col
  = inr (zip_with fdiv (series_diff (gap_fill xs)) (NaN :: stamps_diff_from t0 ts)).
Proof.
  intros Hts Hcol. unfold rocof_series, frame_getitem. now rewrite Hcol, Hts.
Qed.

Lemma rocof_series_cell
    (d : frame) (col : string) (ts : list Z) (xs : list float)
    (i : nat) (f1 f0 : float) (t1 t0 : Z) :
  get_col "Timestamp" d = Some (Stamps ts) ->
  get_col col d = Some (Floats xs) ->
  nth_error (gap_fill xs) (S i) = Some f1 ->
  nth_error (gap_fill xs) i = Some f0 ->
  nth_error ts (S i) = Some t1 ->
  nth_error ts i = Some t0 ->
  exists r,
    rocof_series d col = inr r
    /\ nth_error r (S i) = Some (fdiv (fsub f1 f0) (Fin (total_seconds (t1 - t0)))).
Proof.
  intros Hts Hcol Hf1 Hf0 Ht1 Ht0.
  destruct ts as [|t ts]; [destruct i; discriminate|].
  rewrite (rocof_series_unfold _ _ _ _ _ Hts Hcol).
  eexists. split; [reflexivity|].
  destruct (gap_fill xs) as [|g gs]; [destruct i; discriminate|].
  cbn [series_diff zip_with fdiv nth_error].
  apply zip_with_nth_error.
  - eapply diff_from_nth_error; eauto.
  - eapply stamps_diff_from_nth_error; eauto.
Qed.



Lemma stamps_diff_from_shift (shift : Z) (ts : list Z) :
  forall prev,
    stamps_diff_from (prev + shift) (shift_stamps shift ts) = stamps_diff_from prev ts.
Proof.
  induction ts as [|t ts IH]; intros prev; cbn; [reflexivity|].
  rewrite IH. do 3 f_equal. lia.
Qed.

(** X6: only elapsed times matter: moving every timestamp by the same offset
    (another time zone, another epoch) changes neither the phase nor the
    RoCoF of a column. *)
Theorem derived_series_shift_invariant
    (d d' : frame) (col : string) (nominal : Q) (shift : Z) (ts : list Z)
    (Hts : get_col "Timestamp" d = Some (Stamps ts))
    (Hts' : get_col "Timestamp" d' = Some (Stamps (shift_stamps shift ts)))
    (Hcol : get_col col d' = get_col col d) :
  compute_phase_angle d' col nominal = compute_phase_angle d col nominal
  /\ rocof_series d' col = rocof_series d col.
Proof.
  unfold compute_phase_angle, rocof_series, frame_getitem.
  rewrite Hts, Hts', Hcol.
  destruct (get_col col d) as [[zs|xs]|]; cbn [try_bind as_floats];
    try (split; reflexivity).
  destruct ts as [|t0 ts]; [split; reflexivity|].
  assert (E : map (fun t => Fin (total_seconds (t - (t0 + shift))))
                  (shift_stamps shift ts)
              = map (fun t => Fin (total_seconds (t - t0))) ts).
  { unfold shift_stamps. rewrite map_map. apply map_ext.
    intros t. do 2 f_equal. lia. }
  change (shift_stamps shift (t0 :: ts))
    with ((t0 + shift)%Z :: shift_stamps shift ts).
  cbn [map diff_total_seconds try_bind hd np_diff_prepend diff_from].
  rewrite stamps_diff_from_shift, E.
  replace (t0 + shift - (t0 + shift))%Z with (t0 - t0)%Z by lia.
  split; reflexivity.
Qed.

Lemma derived_series_shift_invariant_witness :
  compute_phase_angle (sample_frame 7200000000000) "DE_Ostrhauderfehn:Frequency" 50.0
  = compute_phase_angle (sample_frame 0) "DE_Ostrhauderfehn:Frequency" 50.0
  /\ rocof_series (sample_frame 7200000000000) "DE_Ostrhauderfehn:Frequency"
     = rocof_series (sample_frame 0) "DE_Ostrhauderfehn:Frequency".
Proof.
  apply (derived_series_shift_invariant
           (sample_frame 0) (sample_frame 7200000000000)
           "DE_Ostrhauderfehn:Frequency" 50.0 7200000000000
           [0; 1000000000; 2000000000]%Z);
    reflexivity.
Defined.


Lemma nth_error_defined {A} (l : list A) (i : nat) :
  (i < List.length l)%nat -> exists x, nth_error l i = Some x.
Proof.
  intros H. destruct (nth_error l i) eqn:E; eauto.
  apply nth_error_None in E. lia.
Qed.



Lemma zip_with_missing_l (f : float -> float -> float) (n : nat) :
  (forall y, f NaN y = NaN) ->
  forall ys, List.length ys = n -> zip_with f (repeat NaN n) ys = repeat NaN n.
Proof.
  intros Hf. induction n as [|n IH]; intros [|y ys] H; cbn in *; try discriminate;
    auto.
  now rewrite Hf, IH by congruence.
Qed.

Lemma np_cumsum_missing (n : nat) : np_cumsum (repeat NaN n) = repeat NaN n.
Proof.
  destruct n as [|n]; [reflexivity|]. cbn. f_equal.
  induction n as [|n IH]; cbn; congruence.
Qed.

Lemma series_diff_missing (n : nat) : series_diff (repeat NaN n) = repeat NaN n.
Proof.
  destruct n as [|n]; [reflexivity|]. cbn. f_equal.
  induction n as [|n IH]; cbn; congruence.
Qed.

(** X8: a station without any measurement gets derived series that are
    missing in every cell, whatever the timestamps are. *)
Theorem silent_station_series_missing
    (d : frame) (col : string) (nominal : Q) (t0 : Z) (ts : list Z)
    (Hts : get_col "Timestamp" d = Some (Stamps (t0 :: ts)))
    (Hcol : get_col col d = Some (Floats (repeat NaN (List.length (t0 :: ts))))) :
  compute_phase_angle d col nominal = inr (repeat NaN (List.length (t0 :: ts)))
  /\ rocof_series d col = inr (repeat NaN (List.length (t0 :: ts))).
Proof.
  rewrite (compute_phase_angle_unfold _ _ _ _ _ _ Hts Hcol).
  rewrite (rocof_series_unfold _ _ _ _ _ Hts Hcol).
  rewrite gap_fill_all_missing, !map_repeat, series_diff_missing.
  cbn [fsub fmul].
  rewrite !zip_with_missing_l; try reflexivity.
  - now rewrite np_cumsum_missing.
  - cbn. now rewrite stamps_diff_from_length.
  - now rewrite diff_from_length, length_map.
Qed.

Lemma silent_station_series_missing_witness :
  compute_phase_angle
    [("Timestamp", Stamps [0; 1000000000]%Z);
     ("DE_Ostrhauderfehn:Frequency", Floats [NaN; NaN])]
    "DE_Ostrhauderfehn:Frequency" 50.0 = inr [NaN; NaN]
  /\ rocof_series
       [("Timestamp", Stamps [0; 1000000000]%Z);
        ("DE_Ostrhauderfehn:Frequency", Floats [NaN; NaN])]
       "DE_Ostrhauderfehn:Frequency" = inr [NaN; NaN].
Proof.
  apply (silent_station_series_missing
           [("Timestamp", Stamps [0; 1000000000]%Z);
            ("DE_Ostrhauderfehn:Frequency", Floats [NaN; NaN])]
           "DE_Ostrhauderfehn:Frequency" 50.0 0%Z [1000000000%Z]);
    reflexivity.
Defined.

Lemma Qis_zero_true (q : Q) : q == 0 -> Qis_zero q = true.
Proof. intros H. unfold Qis_zero. now apply Qeq_bool_iff. Qed.

Lemma Qis_neg_true (q : Q) : q < 0 -> Qis_neg q = true.
Proof.
  intros H. unfold Qis_neg. destruct (Qle_bool 0 q) eqn:E; [|reflexivity].
  apply Qle_bool_iff in E. lra.
Qed.

Lemma Qis_neg_false (q : Q) : 0 <= q -> Qis_neg q = false.
Proof.
  intros H. unfold Qis_neg. apply Qle_bool_iff in H. now rewrite H.
Qed.

(** X9: two rows with the same timestamp: the RoCoF of the second is not a
    number.  It is the missing marker when the frequency did not change
    and an infinity with the sign of the change otherwise; nothing is
    raised and nothing is masked. *)
Theorem rocof_at_equal_timestamps
    (d : frame) (col : string) (ts : list Z) (xs : list float)
    (i : nat) (a b : Q) (t : Z)
    (Hts : get_col "Timestamp" d = Some (Stamps ts))
    (Hcol : get_col col d = Some (Floats xs))
    (Hf1 : nth_error (gap_fill xs) (S i) = Some (Fin a))
    (Hf0 : nth_error (gap_fill xs) i = Some (Fin b))
    (Ht1 : nth_error ts (S i) = Some t)
    (Ht0 : nth_error ts i = Some t) :
  exists r,
    rocof_series d col = inr r
    /\ (a == b -> nth_error r (S i) = Some NaN)
    /\ (b < a -> nth_error r (S i) = Some (Inf false))
    /\ (a < b -> nth_error r (S i) = Some (Inf true)).
Proof.
  destruct (rocof_series_cell d col ts xs i _ _ _ _ Hts Hcol Hf1 Hf0 Ht1 Ht0)
    as (r & Hr & Hcell).
  exists r. split; [exact Hr|].
  rewrite Hcell, Z.sub_diag. cbn [fsub fdiv].
  change (Qis_zero (total_seconds 0)) with true. cbv iota.
  split; [|split]; intros H.
  - rewrite Qis_zero_true; [reflexivity|]. rewrite H. ring.
  - rewrite Qis_zero_false, Qis_neg_false; [reflexivity|lra|lra].
  - rewrite Qis_zero_false, Qis_neg_true; [reflexivity|lra|lra].
Qed.

Lemma rocof_at_equal_timestamps_witness :
  exists r,
    rocof_series [("Timestamp", Stamps [0; 0; 0]%Z);
                  ("PT_Porto:Frequency", Floats [Fin 50.0; Fin 49.9; Fin 49.9])]
                 "PT_Porto:Frequency" = inr r
    /\ nth_error r 1 = Some (Inf true)
    /\ nth_error r 2 = Some NaN.
Proof.
  destruct (rocof_at_equal_timestamps
              [("Timestamp", Stamps [0; 0; 0]%Z);
               ("PT_Porto:Frequency", Floats [Fin 50.0; Fin 49.9; Fin 49.9])]
              "PT_Porto:Frequency" [0; 0; 0]%Z [Fin 50.0; Fin 49.9; Fin 49.9]
              0 49.9 50.0 0%Z eq_refl eq_refl eq_refl eq_refl eq_refl eq_refl)
    as (r & Hr & _ & _ & Hdown).
  destruct (rocof_at_equal_timestamps
              [("Timestamp", Stamps [0; 0; 0]%Z);
               ("PT_Porto:Frequency", Floats [Fin 50.0; Fin 49.9; Fin 49.9])]
              "PT_Porto:Frequency" [0; 0; 0]%Z [Fin 50.0; Fin 49.9; Fin 49.9]
              1 49.9 49.9 0%Z eq_refl eq_refl eq_refl eq_refl eq_refl eq_refl)
    as (r' & Hr' & Hsame & _ & _).
  exists r. split; [exact Hr|]. split.
  - apply Hdown. reflexivity.
  - rewrite Hr in Hr'. inversion Hr'; subst r'. apply Hsame. reflexivity.
Defined.

(** X10: a station whose frequency does not change has a RoCoF of zero at
    every row after the first whose timestamp differs from the previous
    one, whatever the spacing. *)
Theorem rocof_zero_at_constant_frequency
    (d : frame) (col : string) (ts : list Z) (xs : list float) (v : Q)
    (i : nat) (t1 t0 : Z)
    (Hts : get_col "Timestamp" d = Some (Stamps ts))
    (Hcol : get_col col d = Some (Floats xs))
    (Hlen : List.length xs = List.length ts)
    (Hconst : Forall (fun x => x =f= Fin v) xs)
    (Ht1 : nth_error ts (S i) = Some t1)
    (Ht0 : nth_error ts i = Some t0)
    (Hne : t1 <> t0) :
  exists r y,
    rocof_series d col = inr r /\ nth_error r (S i) = Some y /\ is_zero y.
Proof.
  assert (Hg : gap_fill xs = xs) by (eapply gap_fill_finite, constant_finite; eauto).
  assert (Hi : (S i < List.length xs)%nat).
  { rewrite Hlen. apply nth_error_Some. congruence. }
  destruct (nth_error_defined _ (S i) Hi) as [f1 Hf1].
  destruct (nth_error_defined _ i (Nat.lt_succ_l _ _ Hi)) as [f0 Hf0].
  rewrite Forall_forall in Hconst.
  pose proof (Hconst _ (nth_error_In _ _ Hf1)) as H1.
  pose proof (Hconst _ (nth_error_In _ _ Hf0)) as H0.
  rewrite <- Hg in Hf1, Hf0.
  destruct (rocof_series_cell d col ts xs i _ _ _ _ Hts Hcol Hf1 Hf0 Ht1 Ht0)
    as (r & Hr & Hcell).
  exists r. eexists. split; [exact Hr|]. split; [exact Hcell|].
  destruct f1 as [|a|], f0 as [|b|]; cbn in H1, H0; try tauto.
  unfold is_zero. cbn [fsub fdiv]. rewrite total_seconds_nonzero by lia.
  cbn [feq]. rewrite H1, H0. unfold Qdiv. ring.
Qed.

Lemma rocof_zero_at_constant_frequency_witness :
  exists r y,
    rocof_series [("Timestamp", Stamps [0; 1000000000; 5000000000]%Z);
                  ("PT_Porto:Frequency", Floats (repeat (Fin 49.95) 3))]
                 "PT_Porto:Frequency" = inr r
    /\ nth_error r 2 = Some y /\ is_zero y.
Proof.
  apply (rocof_zero_at_constant_frequency
           [("Timestamp", Stamps [0; 1000000000; 5000000000]%Z);
            ("PT_Porto:Frequency", Floats (repeat (Fin 49.95) 3))]
           "PT_Porto:Frequency" [0; 1000000000; 5000000000]%Z
           (repeat (Fin 49.95) 3) 49.95 1 5000000000%Z 1000000000%Z);
    try reflexivity.
  - repeat constructor; reflexivity.
  - discriminate.
Defined.

(** ** Headers: what the textual substitution gives *)

Lemma prefix_app_char (p : string) :
  forall a c b,
    prefix p (a ++ String c b) = true -> prefix p a = true \/ char_in c p = true.
Proof.
  induction p as [|x p IH]; intros a c b H.
  - left. now destruct a.
  - destruct a as [|y a]; cbn in H.
    + right. cbn. destruct (ascii_dec x c) as [->|]; [|discriminate].
      now rewrite Ascii.eqb_refl.
    + destruct (ascii_dec x y) as [->|]; [|discriminate].
      apply IH in H as [H|H].
      * left. cbn. destruct (ascii_dec y y); [exact H|contradiction].
      * right. cbn. rewrite H. apply orb_true_r.
Qed.

Lemma str_in_cons (p : string) (x : ascii) (s : string) :
  str_in p (String x s) = false -> prefix p (String x s) = false /\ str_in p s = false.
Proof. cbn [str_in]. intros H. now apply orb_false_iff in H. Qed.

(** A header without the marker is left as it is. *)
Lemma replace_absent (old new : string) (s : string) :
  str_in old s = false -> replace old new s = s.
Proof.
  unfold replace. induction s as [|x s IH]; intros H; [reflexivity|].
  apply str_in_cons in H as [Hp Hs].
  cbn [replace_from]. rewrite Hp. now rewrite IH.
Qed.

Lemma replace_from_copy (old new : string) (c : ascii) (b : string) :
  char_in c old = false ->
  forall a, str_in old a = false ->
            replace_from old new 0 (a ++ String c b)
            = a ++ replace_from old new 0 (String c b).
Proof.
  intros Hc. induction a as [|x a IH]; intros Ha; [reflexivity|].
  apply str_in_cons in Ha as [Hp Hs].
  cbn [append replace_from].
  destruct (prefix old (String x (a ++ String c b))) eqn:E.
  - apply (prefix_app_char old (String x a) c b) in E as [E|E]; congruence.
  - now rewrite IH.
Qed.

Lemma str_in_app_char (p : string) (c : ascii) (b : string) :
  char_in c p = false ->
  forall a, str_in p a = false -> str_in p (a ++ String c b) = str_in p (String c b).
Proof.
  intros Hc. induction a as [|x a IH]; intros Ha; [reflexivity|].
  apply str_in_cons in Ha as [Hp Hs].
  cbn [append]. change (str_in p (String x (a ++ String c b)))
    with (prefix p (String x (a ++ String c b)) || str_in p (a ++ String c b)).
  rewrite IH by exact Hs.
  destruct (prefix p (String x (a ++ String c b))) eqn:E; [|reflexivity].
  apply (prefix_app_char p (String x a) c b) in E as [E|E]; congruence.
Qed.

Lemma last_char_app (s t : string) :
  t <> EmptyString -> last_char (s ++ t) = last_char t.
Proof.
  intros Ht. induction s as [|x s IH]; [reflexivity|].
  cbn [append last_char]. rewrite IH.
  destruct (s ++ t) eqn:E; [|reflexivity].
  destruct s; [contradiction|discriminate].
Qed.

Lemma derived_names_of_station (station : string)
    (Hid : str_in "Frequency" station = false) :
  str_in "Frequency" (frequency_header station) = true
  /\ phase_name (frequency_header station) = station ++ ":Phase"
  /\ rocof_name (frequency_header station) = station ++ ":RoCoF"
  /\ str_in "Frequency" (station ++ ":Phase") = false
  /\ str_in "Frequency" (station ++ ":RoCoF") = false
  /\ str_in "Frequency" ((station ++ ":Phase") ++ "_rel") = false.
Proof.
  unfold frequency_header, phase_name, rocof_name, replace.
  rewrite !(str_in_app_char "Frequency" ":") by (exact Hid || reflexivity).
  rewrite !(replace_from_copy "Frequency" _ ":") by (exact Hid || reflexivity).
  repeat split; try reflexivity.
  rewrite (str_in_app_char "Frequency" "_" "rel"); try reflexivity.
  now rewrite (str_in_app_char "Frequency" ":") by (exact Hid || reflexivity).
Qed.

(** X11: the names derived from a conventional header [<station>:Frequency]:
    the header is discovered as a station, its phase and RoCoF columns
    are [<station>:Phase] and [<station>:RoCoF], and none of the derived
    names (the relative phase included) is taken for a station. *)
Theorem conventional_derived_names (station : string)
    (Hid : str_in "Frequency" station = false) :
  str_in "Frequency" (frequency_header station) = true
  /\ phase_name (frequency_header station) = station ++ ":Phase"
  /\ rocof_name (frequency_header station) = station ++ ":RoCoF"
  /\ str_in "Frequency" (station ++ ":Phase") = false
  /\ str_in "Frequency" (station ++ ":RoCoF") = false
  /\ str_in "Frequency" ((station ++ ":Phase") ++ "_rel") = false.
Proof. exact (derived_names_of_station station Hid). Qed.

Lemma conventional_derived_names_witness :
  phase_name (frequency_header "DE_Ostrhauderfehn") = "DE_Ostrhauderfehn:Phase"
  /\ rocof_name (frequency_header "DE_Ostrhauderfehn") = "DE_Ostrhauderfehn:RoCoF".
Proof.
  destruct (conventional_derived_names "DE_Ostrhauderfehn" eq_refl)
    as (_ & Hp & Hr & _).
  split; [exact Hp|exact Hr].
Defined.

(** X12: tables with conventional headers have fresh derived names: the
    condition under which the frequency columns are never written. *)
Theorem conventional_headers_fresh (hs : list string) (Hconv : conventional hs) :
  derived_names_fresh hs = true.
Proof.
  unfold derived_names_fresh. apply forallb_forall. intros h Hh.
  apply filter_In in Hh as [Hin Hm].
  destruct (Hconv h Hin Hm) as (station & -> & Hid).
  destruct (derived_names_of_station station Hid) as (_ & -> & -> & H1 & H2 & H3).
  now rewrite H1, H2, H3.
Qed.

Lemma conventional_headers_fresh_witness :
  derived_names_fresh
    ["Timestamp"; frequency_header "DE_Ostrhauderfehn"; "PT_Porto:Voltage"] = true.
Proof.
  apply conventional_headers_fresh. intros h [<-|[<-|[<-|[]]]] Hm; try discriminate.
  exists "DE_Ostrhauderfehn". split; reflexivity.
Defined.

Lemma replace_from_copy_head (c0 : ascii) (old' new : string) (b : string) :
  forall a, char_in c0 a = false ->
            replace_from (String c0 old') new 0 (a ++ b)
            = a ++ replace_from (String c0 old') new 0 b.
Proof.
  induction a as [|x a IH]; intros Ha; [reflexivity|].
  cbn [char_in] in Ha. apply orb_false_iff in Ha as [Hx Ha].
  cbn [append replace_from prefix].
  destruct (ascii_dec c0 x) as [->|_].
  - now rewrite Ascii.eqb_refl in Hx.
  - now rewrite IH.
Qed.

(** X13: the label shown for a station: the identifier before [:Frequency],
    for identifiers without a colon. *)
Theorem station_label (station : string) (Hid : char_in ":" station = false) :
  replace ":Frequency" EmptyString (frequency_header station) = station.
Proof.
  unfold replace, frequency_header.
  rewrite replace_from_copy_head by exact Hid.
  cbn. clear Hid. induction station; cbn; congruence.
Qed.

Lemma station_label_witness :
  replace ":Frequency" EmptyString (frequency_header "ES_Madrid") = "ES_Madrid".
Proof. apply station_label. reflexivity. Defined.

(** ** What the loaded table holds *)

Lemma compute_phase_angle_ext (d d' : frame) (col : string) (nominal : Q) :
  get_col "Timestamp" d' = get_col "Timestamp" d ->
  get_col col d' = get_col col d ->
  compute_phase_angle d' col nominal = compute_phase_angle d col nominal.
Proof.
  intros Ht Hc. unfold compute_phase_angle, frame_getitem. now rewrite Ht, Hc.
Qed.

Lemma rocof_series_ext (d d' : frame) (col : string) :
  get_col "Timestamp" d' = get_col "Timestamp" d ->
  get_col col d' = get_col col d ->
  rocof_series d' col = rocof_series d col.
Proof.
  intros Ht Hc. unfold rocof_series, frame_getitem. now rewrite Ht, Hc.
Qed.

Lemma names_distinct_tail (col : string) (rest : list string) :
  names_distinct (col :: rest) -> names_distinct rest.
Proof.
  intros (H1 & H2 & H3). repeat split.
  - apply (H1 c k); [now right|]. destruct H0 as [<-|H0]; [now left|now right; right].
  - apply (H1 c k); [now right|]. destruct H0 as [<-|H0]; [now left|now right; right].
  - intros c c' Hc Hc'. apply H2; now right.
  - apply (H3 c c'); auto; now right.
  - apply (H3 c c'); auto; now right.
Qed.

(** A successful run of the derivation loop leaves, for each station, the
    integrator's and the differentiator's output on the table the loop
    started from. *)
Lemma derive_loop_spec (rocof : bool) (cols : list string) :
  forall g g',
    derive_loop rocof cols g = (inr tt, g') ->
    names_distinct cols ->
    forall c, In c cols ->
      (exists p, compute_phase_angle (df g) c nominal_default = inr p
                 /\ get_col (phase_name c) (df g') = Some (Floats p))
      /\ (rocof = true ->
          exists r, rocof_series (df g) c = inr r
                    /\ get_col (rocof_name c) (df g') = Some (Floats r)).
Proof.
  induction cols as [|col rest IH]; intros g g' Hrun Hnames c Hc; [destruct Hc|].
  pose proof Hnames as (Hread & Hcross & Hinj).
  rewrite derive_loop_cons in Hrun.
  destruct (compute_phase_angle (df g) col nominal_default) as [e|p] eqn:Ep;
    [discriminate|].
  cbv zeta in Hrun. set (g1 := mkGlobals _ _ _ _) in Hrun.
  assert (Hk1 : forall k, phase_name col <> k -> get_col k (df g1) = get_col k (df g)).
  { intros k Hk. subst g1. cbn. now apply get_set_other. }
  assert (Hin1 : forall k, In k ("Timestamp" :: col :: rest) ->
                           get_col k (df g1) = get_col k (df g)).
  { intros k Hk. apply Hk1. apply (Hread col k); [now left|exact Hk]. }
  assert (Hrocof1 : rocof_series (df g1) col = rocof_series (df g) col).
  { apply rocof_series_ext; apply Hin1; simpl; auto. }
  assert (Hgoal : forall g2,
            derive_loop rocof rest g2 = (inr tt, g') ->
            (forall k, In k ("Timestamp" :: col :: rest) ->
                       get_col k (df g2) = get_col k (df g)) ->
            get_col (phase_name col) (df g2) = Some (Floats p) ->
            (rocof = true ->
             exists r, rocof_series (df g) col = inr r
                       /\ get_col (rocof_name col) (df g2) = Some (Floats r)) ->
            (exists p0, compute_phase_angle (df g) c nominal_default = inr p0
                        /\ get_col (phase_name c) (df g') = Some (Floats p0))
            /\ (rocof = true ->
                exists r, rocof_series (df g) c = inr r
                          /\ get_col (rocof_name c) (df g') = Some (Floats r))).
  { intros g2 Hrest Hin2 Hp2 Hr2.
    destruct (in_dec string_dec c rest) as [Hin|Hnin].
    - destruct (IH g2 g' Hrest (names_distinct_tail _ _ Hnames) c Hin) as [Hp Hr].
      rewrite (compute_phase_angle_ext (df g) (df g2)) in Hp
        by (apply Hin2; simpl; auto).
      rewrite (rocof_series_ext (df g) (df g2)) in Hr
        by (apply Hin2; simpl; auto).
      split; assumption.
    - destruct Hc as [<-|Hc]; [|contradiction].
      apply derive_loop_frame in Hrest as (_ & _ & Hk & _ & _).
      split.
      + exists p. split; [exact Ep|]. rewrite Hk; [exact Hp2|].
        intros c' Hc'. split.
        * apply (Hinj c' col); [now right|now left|]. intros ->. contradiction.
        * intros E. apply (Hcross col c'); [now left|now right|now symmetry].
      + intros Hr. destruct (Hr2 Hr) as (r & Er & Hr').
        exists r. split; [exact Er|]. rewrite Hk; [exact Hr'|].
        intros c' Hc'. split.
        * apply Hcross; [now right|now left].
        * apply (Hinj c' col); [now right|now left|]. intros ->. contradiction. }
  destruct rocof.
  - rewrite Hrocof1 in Hrun.
    destruct (rocof_series (df g) col) as [e|r] eqn:Er; [discriminate|].
    apply (Hgoal _ Hrun).
    + intros k Hk. cbn [df with_df]. rewrite get_set_other; [now apply Hin1|].
      apply (Hread col k); [now left|exact Hk].
    + cbn [df with_df]. rewrite get_set_other.
      * subst g1. cbn. apply get_set_same.
      * intros E. apply (Hcross col col); [now left|now left|now symmetry].
    + intros _. exists r. split; [reflexivity|]. cbn [df with_df]. apply get_set_same.
  - apply (Hgoal _ Hrun).
    + exact Hin1.
    + subst g1. cbn. apply get_set_same.
    + discriminate.
Qed.

(** On success the loop has recorded the phase column of each station, in
    the order of the stations. *)
Lemma derive_loop_recorded (rocof : bool) (cols : list string) :
  forall g g',
    derive_loop rocof cols g = (inr tt, g') ->
    phase_angle_cols g' = (phase_angle_cols g ++ map phase_name cols)%list.
Proof.
  induction cols as [|col rest IH]; intros g g' Hrun.
  - inversion Hrun. cbn. now rewrite app_nil_r.
  - rewrite derive_loop_cons in Hrun.
    destruct (compute_phase_angle (df g) col nominal_default) as [e|p];
      [discriminate|].
    cbv zeta in Hrun. destruct rocof.
    + destruct (rocof_series _ col) as [e|r]; [discriminate|].
      apply IH in Hrun. cbn in Hrun. now rewrite Hrun, <- app_assoc.
    + apply IH in Hrun. cbn in Hrun. now rewrite Hrun, <- app_assoc.
Qed.

Lemma string_app_assoc (a b c : string) : (a ++ b) ++ c = a ++ (b ++ c).
Proof. induction a as [|x a IH]; cbn; congruence. Qed.

Lemma conventional_station (hs : list string) (c : string) :
  conventional hs -> In c (filter (str_in "Frequency") hs) ->
  exists station,
    c = frequency_header station
    /\ phase_name c = station ++ ":Phase"
    /\ rocof_name c = station ++ ":RoCoF"
    /\ str_in "Frequency" (phase_name c) = false
    /\ str_in "Frequency" (rocof_name c) = false.
Proof.
  intros Hconv Hc. apply filter_In in Hc as [Hin Hm].
  destruct (Hconv c Hin Hm) as (station & -> & Hid).
  destruct (derived_names_of_station station Hid)
    as (_ & Hp & Hr & Hmp & Hmr & _).
  exists station. rewrite Hp, Hr. auto.
Qed.

Lemma last_char_differs (s t : string) : last_char s <> last_char t -> s <> t.
Proof. congruence. Qed.

Lemma marker_differs (s t : string) :
  str_in "Frequency" s = false -> str_in "Frequency" t = true -> s <> t.
Proof. congruence. Qed.

Lemma conventional_names_distinct (hs : list string) :
  conventional hs -> names_distinct (filter (str_in "Frequency") hs).
Proof.
  intros Hconv. split; [|split].
  - intros c k Hc Hk.
    destruct (conventional_station hs c Hconv Hc) as (s & _ & Hp & Hr & Hmp & Hmr).
    destruct Hk as [<-|Hk].
    + rewrite Hp, Hr. split; apply last_char_differs; now rewrite last_char_app.
    + apply filter_In in Hk as [_ Hk]. split; now apply marker_differs.
  - intros c c' Hc Hc'.
    destruct (conventional_station hs c Hconv Hc) as (s & _ & -> & _).
    destruct (conventional_station hs c' Hconv Hc') as (s' & _ & _ & -> & _).
    apply last_char_differs. now rewrite !last_char_app.
  - intros c c' Hc Hc' Hne.
    destruct (conventional_station hs c Hconv Hc) as (s & -> & -> & -> & _).
    destruct (conventional_station hs c' Hconv Hc') as (s' & -> & -> & -> & _).
    split; intros E; apply append_cancel_r in E; now subst.
Qed.

Lemma conventional_rel_fresh (hs : list string) (c k : string) :
  conventional hs -> In c (filter (str_in "Frequency") hs) ->
  In k ("Timestamp" :: "DE_Ostrhauderfehn:Phase"
          :: map phase_name (filter (str_in "Frequency") hs)
          ++ map rocof_name (filter (str_in "Frequency") hs))%list ->
  phase_name c ++ "_rel" <> k.
Proof.
  intros Hconv Hc Hk. apply last_char_differs.
  rewrite last_char_app by discriminate.
  destruct Hk as [<-|[<-|Hk]]; try discriminate.
  apply in_app_or in Hk as [Hk|Hk]; apply in_map_iff in Hk as (c' & <- & Hc');
    destruct (conventional_station hs c' Hconv Hc') as (s' & _ & Hp & Hr & _).
  - rewrite Hp, last_char_app; discriminate.
  - rewrite Hr, last_char_app; discriminate.
Qed.

Lemma load_and_derive_success
    (rocof : bool) (t : list (string * raw_column)) (g s : globals) :
  load_and_derive rocof (Csv t) g = (inr tt, s) ->
  exists ts,
    get_col "Timestamp" (read_table t) = Some (Stamps ts)
    /\ derive_loop rocof (filter (str_in "Frequency") (map fst t))
                   (mkGlobals (read_table t)
                              (filter (str_in "Frequency") (map fst t)) []
                              (reference_station g))
       = (inr tt, s).
Proof.
  intros Hrun. rewrite load_and_derive_unfold in Hrun.
  cbn [read_csv] in Hrun. fold (read_table t) in Hrun.
  destruct (frame_getitem (read_table t) "Timestamp") as [e|c] eqn:Ets;
    [discriminate|].
  apply frame_getitem_inr in Ets.
  destruct c as [ts|xs]; [|discriminate].
  cbn [to_datetime] in Hrun. cbv zeta in Hrun.
  rewrite (set_col_unchanged _ _ _ Ets), read_table_headers in Hrun.
  eauto.
Qed.

(** X14: end to end, for a table with conventional headers: when the module
    body has run without error, the table holds for every station its
    phase column, which is the integrator's output on the file's data,
    its RoCoF column ([main.py]), which is the differentiator's, and its
    relative phase, which is its phase minus the phase column of the
    reference station, cell by cell. *)
Theorem loaded_table_holds_derived_series
    (rocof : bool) (t : list (string * raw_column)) (g g' : globals)
    (station : string)
    (Hrun : module_body rocof (Csv t) g = (inr tt, g'))
    (Hconv : conventional (map fst t))
    (Hin : In (frequency_header station) (map fst t))
    (Hid : str_in "Frequency" station = false) :
  exists p pref,
    compute_phase_angle (read_table t) (frequency_header station) nominal_default
    = inr p
    /\ get_col (station ++ ":Phase") (df g') = Some (Floats p)
    /\ get_col "DE_Ostrhauderfehn:Phase" (df g') = Some (Floats pref)
    /\ get_col (station ++ ":Phase_rel") (df g')
       = Some (Floats (zip_with fsub p pref))
    /\ (rocof = true ->
        exists r, rocof_series (read_table t) (frequency_header station) = inr r
                  /\ get_col (station ++ ":RoCoF") (df g') = Some (Floats r)).
Proof.
  rewrite module_body_unfold in Hrun.
  destruct (load_and_derive rocof (Csv t) g) as [[e|[]] s] eqn:Eload;
    [discriminate|].
  apply load_and_derive_success in Eload as (ts & Hts & Hderive).
  set (fcols := filter (str_in "Frequency") (map fst t)) in *.
  destruct (derived_names_of_station station Hid) as (Hm & Hp & Hr & _).
  assert (Hc : In (frequency_header station) fcols) by (apply filter_In; auto).
  pose proof (conventional_names_distinct _ Hconv) as Hnames.
  destruct (derive_loop_spec rocof fcols _ s Hderive Hnames _ Hc)
    as [(p & Ep & Hphase) Hrocof].
  cbn [df] in Ep, Hrocof. rewrite Hp in Hphase. rewrite Hr in Hrocof.
  pose proof (derive_loop_recorded rocof fcols _ s Hderive) as Hrec.
  cbn [phase_angle_cols app] in Hrec.
  set (s' := mkGlobals (df s) _ _ _) in Hrun.
  assert (Hfresh : forall c, In c (phase_angle_cols s) ->
                     ~ In (c ++ "_rel") (reference_station s' :: phase_angle_cols s)).
  { intros c Hcin Hbad. rewrite Hrec in Hcin, Hbad.
    apply in_map_iff in Hcin as (c0 & <- & Hc0).
    apply (conventional_rel_fresh _ c0 (phase_name c0 ++ "_rel") Hconv Hc0);
      [|reflexivity].
    right. destruct Hbad as [Hbad|Hbad]; [now left|right].
    apply in_or_app. now left. }
  assert (Hcin : In (station ++ ":Phase") (phase_angle_cols s)).
  { rewrite Hrec, <- Hp. now apply in_map. }
  destruct (normalize_loop_spec _ s' g' Hrun Hfresh _ Hcin)
    as (a & rf & Ha & Hrf & Hrel).
  cbn [df reference_station s'] in Ha, Hrf. subst s'.
  rewrite Hphase in Ha. inversion Ha; subst a.
  apply normalize_loop_frame in Hrun as (_ & _ & _ & Hkeep & _).
  cbn [df] in Hkeep.
  assert (Hkept : forall k,
            In k ("Timestamp" :: "DE_Ostrhauderfehn:Phase"
                    :: map phase_name fcols ++ map rocof_name fcols)%list ->
            get_col k (df g') = get_col k (df s)).
  { intros k Hk. apply Hkeep. intros c Hcc. rewrite Hrec in Hcc.
    apply in_map_iff in Hcc as (c0 & <- & Hc0).
    now apply (conventional_rel_fresh _ c0 k Hconv Hc0). }
  exists p, rf. split; [exact Ep|]. split; [|split; [|split]].
  - rewrite Hkept; [exact Hphase|].
    right; right. apply in_or_app. left. rewrite <- Hp. now apply in_map.
  - rewrite Hkept; [exact Hrf|]. right; now left.
  - rewrite string_app_assoc in Hrel. exact Hrel.
  - intros Hroc. destruct (Hrocof Hroc) as (r & Er & Hr').
    exists r. split; [exact Er|]. rewrite Hkept; [exact Hr'|].
    right; right. apply in_or_app. right. rewrite <- Hr. now apply in_map.
Qed.

Lemma loaded_table_holds_derived_series_witness :
  exists p pref,
    get_col "ES_Madrid:Phase" (df sample_globals) = Some (Floats p)
    /\ get_col "DE_Ostrhauderfehn:Phase" (df sample_globals) = Some (Floats pref)
    /\ get_col "ES_Madrid:Phase_rel" (df sample_globals)
       = Some (Floats (zip_with fsub p pref)).
Proof.
  destruct (loaded_table_holds_derived_series
              true
              [("Timestamp", Instants [0; 1000000000; 2000000000]%Z);
               ("DE_Ostrhauderfehn:Frequency",
                Numbers [Some 50.00; Some 50.10; Some 49.90]);
               ("ES_Madrid:Frequency", Numbers [None; Some 50.10; None])]
              fresh_globals sample_globals "ES_Madrid" eq_refl)
    as (p & pref & _ & Hp & Href & Hrel & _).
  - intros h [<-|[<-|[<-|[]]]] Hm; try discriminate.
    + exists "DE_Ostrhauderfehn". split; reflexivity.
    + exists "ES_Madrid". split; reflexivity.
  - right. right. left. reflexivity.
  - reflexivity.
  - exists p, pref. auto.
Defined.

(** ** The module body: errors and what it keeps *)

Lemma get_col_none (k : string) (d : frame) :
  get_col k d = None <-> ~ In k (headers d).
Proof.
  unfold headers. induction d as [|[k0 c] d IH]; cbn.
  - tauto.
  - destruct (String.eqb k0 k) eqn:E.
    + apply String.eqb_eq in E. split; [discriminate|]. intros H. exfalso. auto.
    + apply String.eqb_neq in E. rewrite IH. tauto.
Qed.

Lemma set_col_headers_extend (k : string) (c : column) (d : frame) :
  exists extra, headers (set_col k c d) = (headers d ++ extra)%list.
Proof.
  unfold headers. induction d as [|[k0 x] d IH]; cbn.
  - now exists [k].
  - destruct (String.eqb k0 k); cbn.
    + exists []. now rewrite app_nil_r.
    + destruct IH as (extra & ->). now exists extra.
Qed.

Lemma extend_trans {A} (l0 l1 l2 : list A) :
  (exists e, l1 = (l0 ++ e)%list) -> (exists e, l2 = (l1 ++ e)%list) ->
  exists e, l2 = (l0 ++ e)%list.
Proof.
  intros (e1 & ->) (e2 & ->). exists (e1 ++ e2)%list. now rewrite app_assoc.
Qed.

Lemma extend_refl {A} (l : list A) : exists e, l = (l ++ e)%list.
Proof. exists []. now rewrite app_nil_r. Qed.

Lemma derive_loop_headers (rocof : bool) (cols : list string) :
  forall g r g',
    derive_loop rocof cols g = (r, g') ->
    exists extra, headers (df g') = (headers (df g) ++ extra)%list.
Proof.
  induction cols as [|col rest IH]; intros g r g' Hrun.
  - inversion Hrun. apply extend_refl.
  - rewrite derive_loop_cons in Hrun.
    destruct (compute_phase_angle (df g) col nominal_default) as [e|p].
    { inversion Hrun. apply extend_refl. }
    cbv zeta in Hrun.
    pose proof (set_col_headers_extend (phase_name col) (Floats p) (df g)) as H1.
    destruct rocof.
    + cbn [df] in Hrun.
      destruct (rocof_series _ col) as [e|rc].
      { inversion Hrun. exact H1. }
      apply IH in Hrun. cbn [df with_df] in Hrun.
      eapply extend_trans; [|exact Hrun].
      eapply extend_trans; [exact H1|apply set_col_headers_extend].
    + apply IH in Hrun. cbn [df] in Hrun. eapply extend_trans; eauto.
Qed.

Lemma normalize_loop_headers (cols : list string) :
  forall g r g',
    normalize_loop cols g = (r, g') ->
    exists extra, headers (df g') = (headers (df g) ++ extra)%list.
Proof.
  induction cols as [|col rest IH]; intros g r g' Hrun.
  - inversion Hrun. apply extend_refl.
  - rewrite normalize_loop_cons in Hrun.
    destruct (frame_getitem (df g) col); [inversion Hrun; apply extend_refl|].
    destruct (frame_getitem (df g) (reference_station g));
      [inversion Hrun; apply extend_refl|].
    destruct (column_sub c c0); [inversion Hrun; apply extend_refl|].
    apply IH in Hrun. cbn [df with_df] in Hrun.
    eapply extend_trans; [apply set_col_headers_extend|exact Hrun].
Qed.

(** X15: whatever the outcome, loading never drops or moves a column of the
    file: the headers of the table start with the file's headers, in the
    file's order, and the derived columns come after them. *)
Theorem load_keeps_file_columns
    (rocof : bool) (t : list (string * raw_column)) (g : globals)
    (r : exn + unit) (g' : globals)
    (Hrun : module_body rocof (Csv t) g = (r, g')) :
  exists derived, headers (df g') = (map fst t ++ derived)%list.
Proof.
  rewrite <- read_table_headers.
  rewrite module_body_unfold, load_and_derive_unfold in Hrun.
  cbn [read_csv] in Hrun. fold (read_table t) in Hrun.
  destruct (frame_getitem (read_table t) "Timestamp") as [e|ts] eqn:Ets.
  { inversion Hrun. apply extend_refl. }
  destruct (to_datetime ts) as [e|ts'].
  { inversion Hrun. apply extend_refl. }
  cbv zeta in Hrun. apply frame_getitem_inr in Ets.
  rewrite (set_col_headers _ _ _ _ Ets) in Hrun.
  destruct (derive_loop rocof _ _) as [r1 s] eqn:Ed.
  apply derive_loop_headers in Ed. cbn [df] in Ed.
  rewrite (set_col_headers _ _ _ _ Ets) in Ed.
  destruct r1 as [e|u]; [inversion Hrun; subst; exact Ed|].
  apply normalize_loop_headers in Hrun. cbn [df] in Hrun.
  eapply extend_trans; eauto.
Qed.

Lemma load_keeps_file_columns_witness :
  exists derived,
    headers (df sample_globals)
    = (["Timestamp"; "DE_Ostrhauderfehn:Frequency"; "ES_Madrid:Frequency"]
         ++ derived)%list.
Proof.
  apply (load_keeps_file_columns
           true
           [("Timestamp", Instants [0; 1000000000; 2000000000]%Z);
            ("DE_Ostrhauderfehn:Frequency",
             Numbers [Some 50.00; Some 50.10; Some 49.90]);
            ("ES_Madrid:Frequency", Numbers [None; Some 50.10; None])]
           fresh_globals (inr tt) sample_globals).
  reflexivity.
Defined.

(** Every station the loop has gone through has its derived columns in
    the table. *)
Lemma derive_loop_written (rocof : bool) (cols : list string) :
  forall g g',
    derive_loop rocof cols g = (inr tt, g') ->
    forall c, In c cols ->
      get_col (phase_name c) (df g') <> None
      /\ (rocof = true -> get_col (rocof_name c) (df g') <> None).
Proof.
  induction cols as [|col rest IH]; intros g g' Hrun c Hc; [destruct Hc|].
  rewrite derive_loop_cons in Hrun.
  destruct (compute_phase_angle (df g) col nominal_default) as [e|p];
    [discriminate|].
  cbv zeta in Hrun. destruct Hc as [<-|Hc].
  - destruct rocof.
    + cbn [df] in Hrun. destruct (rocof_series _ col) as [e|rc]; [discriminate|].
      apply derive_loop_frame in Hrun as (_ & _ & _ & Hpres & _).
      cbn [df with_df] in Hpres. split.
      * apply Hpres, set_col_present. rewrite get_set_same. discriminate.
      * intros _. apply Hpres. rewrite get_set_same. discriminate.
    + apply derive_loop_frame in Hrun as (_ & _ & _ & Hpres & _).
      cbn [df] in Hpres. split; [|discriminate].
      apply Hpres. rewrite get_set_same. discriminate.
  - destruct rocof.
    + cbn [df] in Hrun. destruct (rocof_series _ col) as [e|rc]; [discriminate|].
      exact (IH _ _ Hrun c Hc).
    + exact (IH _ _ Hrun c Hc).
Qed.

Lemma normalize_loop_written (cols : list string) :
  forall g g',
    normalize_loop cols g = (inr tt, g') ->
    forall c, In c cols -> get_col (c ++ "_rel") (df g') <> None.
Proof.
  induction cols as [|col rest IH]; intros g g' Hrun c Hc; [destruct Hc|].
  rewrite normalize_loop_cons in Hrun.
  destruct (frame_getitem (df g) col); [discriminate|].
  destruct (frame_getitem (df g) (reference_station g)); [discriminate|].
  destruct (column_sub c0 c1); [discriminate|].
  destruct Hc as [<-|Hc].
  - apply normalize_loop_frame in Hrun as (_ & _ & _ & _ & Hpres).
    apply Hpres. cbn [df with_df]. rewrite get_set_same. discriminate.
  - exact (IH _ _ Hrun c Hc).
Qed.

(** X16: a file without a [Timestamp] column: the load raises
    [KeyError('Timestamp')] after the table has been bound, so [df] is the
    new table while the other globals are what they were. *)
Theorem load_without_timestamp
    (rocof : bool) (t : list (string * raw_column)) (g : globals)
    (Hts : ~ In "Timestamp" (map fst t)) :
  module_body rocof (Csv t) g
  = (inl (KeyError "Timestamp"), with_df (read_table t) g).
Proof.
  rewrite module_body_unfold, load_and_derive_unfold.
  cbn [read_csv]. fold (read_table t).
  rewrite <- read_table_headers in Hts. apply get_col_none in Hts.
  unfold frame_getitem. now rewrite Hts.
Qed.

Lemma load_without_timestamp_witness :
  module_body true (Csv [("ES_Madrid:Frequency", Numbers [Some 50.0])]) stale_globals
  = (inl (KeyError "Timestamp"),
     with_df [("ES_Madrid:Frequency", Floats [Fin 50.0])] stale_globals).
Proof.
  apply (load_without_timestamp
           true [("ES_Madrid:Frequency", Numbers [Some 50.0])] stale_globals).
  intros [H|[]]. discriminate.
Defined.

(** X17: a file with a station and no row: the load raises [IndexError] at the
    first station ([timestamps.iloc[0]]); the stations are discovered,
    nothing is derived. *)
Theorem load_without_rows
    (rocof : bool) (t : list (string * raw_column)) (g : globals)
    (col : string) (rest : list string) (xs : list (option Q))
    (Hts : get_col "Timestamp" (read_table t) = Some (Stamps []))
    (Hstations : filter (str_in "Frequency") (map fst t) = col :: rest)
    (Hcol : get_col col (read_table t) = Some (Floats (map of_raw xs))) :
  module_body rocof (Csv t) g
  = (inl IndexError,
     mkGlobals (read_table t) (col :: rest) [] (reference_station g)).
Proof.
  rewrite module_body_unfold, load_and_derive_unfold.
  cbn [read_csv]. fold (read_table t).
  unfold frame_getitem at 1. rewrite Hts. cbn [to_datetime]. cbv zeta.
  rewrite (set_col_unchanged _ _ _ Hts), read_table_headers, Hstations.
  rewrite derive_loop_cons. cbn [df].
  unfold compute_phase_angle, frame_getitem. now rewrite Hts, Hcol.
Qed.

Lemma load_without_rows_witness :
  main_py no_row_file fresh_globals
  = (inl IndexError,
     mkGlobals [("Timestamp", Stamps []); ("ES_Madrid:Frequency", Floats [])]
               ["ES_Madrid:Frequency"] [] EmptyString).
Proof.
  apply (load_without_rows
           true [("Timestamp", Instants []); ("ES_Madrid:Frequency", Numbers [])]
           fresh_globals "ES_Madrid:Frequency" [] []);
    reflexivity.
Defined.

(** X18: the reference station is not among the stations of the file: the
    load raises [KeyError('DE_Ostrhauderfehn:Phase')] at the first
    station of the normalization, when the phase column of every station
    has already been derived and recorded. *)
Theorem load_without_reference_station
    (rocof : bool) (t : list (string * raw_column)) (g s : globals)
    (Hderive : load_and_derive rocof (Csv t) g = (inr tt, s))
    (Hstation : filter (str_in "Frequency") (map fst t) <> [])
    (Hfile : ~ In "DE_Ostrhauderfehn:Phase" (map fst t))
    (Hnames : forall c, In c (filter (str_in "Frequency") (map fst t)) ->
                        phase_name c <> "DE_Ostrhauderfehn:Phase"
                        /\ rocof_name c <> "DE_Ostrhauderfehn:Phase") :
  module_body rocof (Csv t) g
  = (inl (KeyError "DE_Ostrhauderfehn:Phase"),
     mkGlobals (df s) (frequency_columns s) (phase_angle_cols s)
               "DE_Ostrhauderfehn:Phase")
  /\ phase_angle_cols s
     = map phase_name (filter (str_in "Frequency") (map fst t))
  /\ forall c, In c (filter (str_in "Frequency") (map fst t)) ->
               get_col (phase_name c) (df s) <> None.
Proof.
  rewrite module_body_unfold, Hderive.
  apply load_and_derive_success in Hderive as (ts & Hts & Hloop).
  set (fcols := filter (str_in "Frequency") (map fst t)) in *.
  pose proof (derive_loop_recorded _ _ _ _ Hloop) as Hrec.
  cbn [phase_angle_cols app] in Hrec.
  pose proof (derive_loop_written _ _ _ _ Hloop) as Hwritten.
  pose proof Hloop as Hframe.
  apply derive_loop_frame in Hframe as (_ & _ & Hkeep & _ & _). cbn [df] in Hkeep.
  assert (Href : get_col "DE_Ostrhauderfehn:Phase" (df s) = None).
  { rewrite Hkeep by exact Hnames.
    apply get_col_none. now rewrite read_table_headers. }
  split; [|split].
  - rewrite Hrec. destruct fcols as [|c0 rest]; [contradiction|].
    cbn [map]. rewrite normalize_loop_cons. cbn [df reference_station].
    unfold frame_getitem. rewrite Href.
    destruct (get_col (phase_name c0) (df s)) eqn:E; [reflexivity|].
    exfalso. destruct (Hwritten c0 (or_introl eq_refl)) as [H _]. now apply H.
  - exact Hrec.
  - intros c Hc. now apply Hwritten.
Qed.

Lemma load_without_reference_station_witness :
  fst (main_py no_reference_file fresh_globals)
  = inl (KeyError "DE_Ostrhauderfehn:Phase")
  /\ get_col "ES_Madrid:Phase" (df (snd (main_py no_reference_file fresh_globals)))
     <> None.
Proof.
  destruct (load_without_reference_station
              true
              [("Timestamp", Instants [0; 1000000000]%Z);
               ("ES_Madrid:Frequency", Numbers [Some 50.00; Some 50.10])]
              fresh_globals
              (snd (load_and_derive true no_reference_file fresh_globals)))
    as (Hrun & _ & Hwritten).
  - reflexivity.
  - discriminate.
  - intros [H|[H|[]]]; discriminate.
  - intros c [<-|[]]. split; discriminate.
  - unfold main_py, no_reference_file. rewrite Hrun. split; [reflexivity|].
    apply (Hwritten "ES_Madrid:Frequency"). left. reflexivity.
Defined.

(** X19: the stations are discovered in the order of the file's headers, their
    phase columns are recorded in the same order, and the station
    selector offers exactly the discovered stations, the first two being
    selected at start. *)
Theorem discovery_in_file_order
    (rocof : bool) (t : list (string * raw_column)) (g g' : globals)
    (Hrun : module_body rocof (Csv t) g = (inr tt, g')) :
  frequency_columns g' = filter (str_in "Frequency") (map fst t)
  /\ phase_angle_cols g' = map phase_name (frequency_columns g')
  /\ reference_station g' = "DE_Ostrhauderfehn:Phase"
  /\ map snd (dropdown_options g') = frequency_columns g'
  /\ dropdown_default g' = firstn 2 (filter (str_in "Frequency") (map fst t)).
Proof.
  destruct (module_body_success rocof t g g' Hrun) as [_ Hfc].
  rewrite module_body_unfold in Hrun.
  destruct (load_and_derive rocof (Csv t) g) as [[e|[]] s] eqn:Eload;
    [discriminate|].
  apply load_and_derive_success in Eload as (ts & _ & Hloop).
  apply derive_loop_recorded in Hloop. cbn [phase_angle_cols app] in Hloop.
  apply normalize_loop_frame in Hrun as (_ & Hp & Hr & _). cbn in Hp, Hr.
  repeat split.
  - exact Hfc.
  - now rewrite Hp, Hloop, Hfc.
  - exact Hr.
  - unfold dropdown_options. rewrite map_map. cbn [snd]. apply map_id.
  - unfold dropdown_default. now rewrite Hfc.
Qed.

Lemma discovery_in_file_order_witness :
  frequency_columns sample_globals
  = ["DE_Ostrhauderfehn:Frequency"; "ES_Madrid:Frequency"]
  /\ phase_angle_cols sample_globals = ["DE_Ostrhauderfehn:Phase"; "ES_Madrid:Phase"].
Proof.
  destruct (discovery_in_file_order
              true
              [("Timestamp", Instants [0; 1000000000; 2000000000]%Z);
               ("DE_Ostrhauderfehn:Frequency",
                Numbers [Some 50.00; Some 50.10; Some 49.90]);
               ("ES_Madrid:Frequency", Numbers [None; Some 50.10; None])]
              fresh_globals sample_globals eq_refl) as (Hf & Hp & _).
  split; [exact Hf|]. rewrite Hp, Hf. reflexivity.
Defined.

Lemma loaded_columns_present
    (rocof : bool) (t : list (string * raw_column)) (g g' : globals) :
  module_body rocof (Csv t) g = (inr tt, g') ->
  get_col "Timestamp" (df g') <> None
  /\ forall c, In c (frequency_columns g') ->
       get_col c (df g') <> None
       /\ get_col (phase_name c ++ "_rel") (df g') <> None
       /\ (rocof = true -> get_col (rocof_name c) (df g') <> None).
Proof.
  intros Hrun.
  destruct (module_body_success rocof t g g' Hrun) as [Hts Hfc].
  split; [exact Hts|]. rewrite Hfc. clear Hts Hfc.
  rewrite module_body_unfold in Hrun.
  destruct (load_and_derive rocof (Csv t) g) as [[e|[]] s] eqn:Eload;
    [discriminate|].
  apply load_and_derive_success in Eload as (ts & _ & Hloop).
  pose proof (derive_loop_recorded _ _ _ _ Hloop) as Hrec.
  cbn [phase_angle_cols app] in Hrec.
  pose proof (derive_loop_written _ _ _ _ Hloop) as Hwritten.
  apply derive_loop_frame in Hloop as (_ & _ & _ & Hpres & _). cbn [df] in Hpres.
  pose proof (normalize_loop_written _ _ _ Hrun) as Hrel.
  apply normalize_loop_frame in Hrun as (_ & _ & _ & _ & Hpres'). cbn [df] in Hpres'.
  intros c Hc. split; [|split].
  - apply Hpres', Hpres. apply filter_In in Hc as [Hc _].
    intros E. apply get_col_none in E. now rewrite read_table_headers in E.
  - apply Hrel. cbn [phase_angle_cols]. rewrite Hrec. now apply in_map.
  - intros Hr. apply Hpres'. now apply Hwritten.
Qed.

(** X20: after a load of [main.py] without error, every selection made from
    the options of the station selector, if not empty, is served in every
    view, with one trace per selected station. *)
Theorem offered_stations_are_served
    (t : list (string * raw_column)) (g g' : globals)
    (stations : list string) (mode : string)
    (Hrun : main_py (Csv t) g = (inr tt, g'))
    (Hsome : stations <> [])
    (Hoffered : forall s, In s stations -> In s (map snd (dropdown_options g'))) :
  exists fig,
    fst (update_graph stations mode g') = inr fig
    /\ List.length (fig_data fig) = List.length stations.
Proof.
  destruct (loaded_columns_present true t g g' Hrun) as [Hts Hcols].
  destruct (get_col "Timestamp" (df g')) as [x|] eqn:Ex; [|congruence].
  assert (Hall : forall s, In s stations ->
                   get_col (fst (projected_column mode s)) (df g') <> None).
  { intros s Hs. apply Hoffered in Hs.
    unfold dropdown_options in Hs. rewrite map_map in Hs. cbn [snd] in Hs.
    rewrite map_id in Hs.
    destruct (Hcols s Hs) as (Hf & Hp & Hr). unfold projected_column.
    destruct (String.eqb mode "Frequency"); [exact Hf|].
    destruct (String.eqb mode "Phase"); [exact Hp|]. now apply Hr. }
  destruct (graph_loop_success mode x g' Ex stations 0 [] None Hall)
    as (trs & title' & Hloop & Hys & _ & Hcons).
  rewrite update_graph_unfold, Hloop. cbn [app].
  destruct title' as [title|]; [|now specialize (Hcons Hsome)].
  eexists. split; [reflexivity|]. cbn [fig_data].
  apply (f_equal (@List.length _)) in Hys. now rewrite !length_map in Hys.
Qed.

Lemma offered_stations_are_served_witness :
  exists fig,
    fst (update_graph ["ES_Madrid:Frequency"; "DE_Ostrhauderfehn:Frequency"]
                      "RoCoF" sample_globals) = inr fig
    /\ List.length (fig_data fig) = 2%nat.
Proof.
  apply (offered_stations_are_served
           [("Timestamp", Instants [0; 1000000000; 2000000000]%Z);
            ("DE_Ostrhauderfehn:Frequency",
             Numbers [Some 50.00; Some 50.10; Some 49.90]);
            ("ES_Madrid:Frequency", Numbers [None; Some 50.10; None])]
           fresh_globals sample_globals).
  - reflexivity.
  - discriminate.
  - intros s [<-|[<-|[]]]; [right; left|left]; reflexivity.
Defined.

(** ** The traces of a figure *)

Lemma axis_title_by_mode (mode s s' : string) :
  snd (projected_column mode s) = snd (projected_column mode s').
Proof.
  unfold projected_column.
  destruct (String.eqb mode "Frequency"); [reflexivity|].
  destruct (String.eqb mode "Phase"); reflexivity.
Qed.

Lemma graph_loop_traces (mode : string) (x : column) (g : globals) :
  get_col "Timestamp" (df g) = Some x ->
  forall stations i traces title,
    (forall s, In s stations -> get_col (fst (projected_column mode s)) (df g) <> None) ->
    exists trs title',
      fst (graph_loop mode i stations traces title g) = inr ((traces ++ trs)%list, title')
      /\ (forall s, In s stations -> title' = Some (snd (projected_column mode s)))
      /\ (forall j s,
            nth_error stations j = Some s ->
            exists y,
              get_col (fst (projected_column mode s)) (df g) = Some y
              /\ nth_error trs j = Some (station_trace mode (i + j) s x y)).
Proof.
  intros Hx. induction stations as [|s rest IH]; intros i traces title Hall.
  - exists [], title. cbn. rewrite app_nil_r. split; [reflexivity|].
    split; [intros s []|intros [|j] s H; discriminate].
  - rewrite graph_loop_cons. unfold frame_getitem. rewrite Hx.
    destruct (get_col (fst (projected_column mode s)) (df g)) as [y|] eqn:E;
      [|exfalso; apply (Hall s); [now left|exact E]].
    destruct (IH (S i) (traces ++ [station_trace mode i s x y])%list
                 (Some (snd (projected_column mode s))))
      as (trs & title' & Hrun & Htitle & Hnth).
    { intros s' Hs'. apply Hall. now right. }
    exists (station_trace mode i s x y :: trs), title'.
    rewrite Hrun, <- app_assoc. split; [reflexivity|]. split.
    + intros s' Hs'. destruct rest as [|s1 rest].
      * cbn in Hrun.
        assert (Ht : title' = Some (snd (projected_column mode s))) by congruence.
        rewrite Ht. f_equal. apply axis_title_by_mode.
      * rewrite (Htitle s1 (or_introl eq_refl)). f_equal. apply axis_title_by_mode.
    + intros [|j] s' Hj; cbn in Hj.
      * inversion Hj; subst s'. exists y. rewrite Nat.add_0_r. auto.
      * destruct (Hnth j s' Hj) as (y' & Hy' & Htr).
        exists y'. split; [exact Hy'|]. cbn [nth_error].
        now rewrite Nat.add_succ_r.
Qed.

(** X21: what a figure of [main.py] shows.  Its title carries the view, the
    threshold lines come with the Frequency view only, and the trace of
    the station at position [j] of the selection holds the timestamps and
    the station's column for the view, is named by the station's label
    and the view, and takes the colour [j mod 10] of the palette: the
    colours repeat from the eleventh station on. *)
Theorem figure_traces
    (g : globals) (stations : list string) (mode : string) (x : column)
    (Hx : get_col "Timestamp" (df g) = Some x)
    (Hsome : stations <> [])
    (Hall : forall s, In s stations ->
                      get_col (fst (projected_column mode s)) (df g) <> None) :
  exists fig,
    fst (update_graph stations mode g) = inr fig
    /\ fig_title fig = mode ++ " over Time"
    /\ (forall s, fig_yaxis_title fig = snd (projected_column mode s))
    /\ fig_shapes fig
       = (if String.eqb mode "Frequency" then [49.8; 50.2; 49.95; 50.05] else [])
    /\ forall j s,
         nth_error stations j = Some s ->
         exists tr,
           nth_error (fig_data fig) j = Some tr
           /\ trace_x tr = x
           /\ get_col (fst (projected_column mode s)) (df g) = Some (trace_y tr)
           /\ trace_name tr
              = replace ":Frequency" EmptyString s ++ " (" ++ mode ++ ")"
           /\ trace_color tr = nth (j mod 10) COLOR_PALETTE EmptyString.
Proof.
  destruct (graph_loop_traces mode x g Hx stations 0 [] None Hall)
    as (trs & title' & Hrun & Htitle & Hnth).
  rewrite update_graph_unfold, Hrun. cbn [app].
  destruct stations as [|s0 rest]; [contradiction|].
  rewrite (Htitle s0 (or_introl eq_refl)).
  eexists. split; [reflexivity|]. cbn [fig_title fig_yaxis_title fig_shapes fig_data].
  split; [reflexivity|]. split; [intros s; apply axis_title_by_mode|].
  split; [reflexivity|].
  intros j s Hj. destruct (Hnth j s Hj) as (y & Hy & Htr).
  exists (station_trace mode j s x y). cbn [Nat.add] in Htr.
  split; [exact Htr|]. cbn. auto.
Qed.

Lemma figure_traces_witness :
  exists fig tr,
    fst (update_graph ["ES_Madrid:Frequency"; "DE_Ostrhauderfehn:Frequency"]
                      "Phase" sample_globals) = inr fig
    /\ fig_shapes fig = []
    /\ nth_error (fig_data fig) 1 = Some tr
    /\ trace_name tr = "DE_Ostrhauderfehn (Phase)"
    /\ trace_color tr = "#ff7f0e".
Proof.
  destruct (figure_traces
              sample_globals ["ES_Madrid:Frequency"; "DE_Ostrhauderfehn:Frequency"]
              "Phase" (Stamps [0; 1000000000; 2000000000]%Z) eq_refl)
    as (fig & Hrun & _ & _ & Hshapes & Htraces).
  - discriminate.
  - intros s [<-|[<-|[]]]; discriminate.
  - destruct (Htraces 1%nat "DE_Ostrhauderfehn:Frequency" eq_refl)
      as (tr & Htr & _ & _ & Hname & Hcolor).
    exists fig, tr. repeat split; assumption.
Defined.

(** ** The two entry points *)

Lemma bo_graph_loop_cons (mode : string) (s : string) (rest : list string)
    (traces : list bo_trace) (g : globals) :
  bo_graph_loop mode (s :: rest) traces g =
    match frame_getitem (df g) "Timestamp" with
    | inl e => (inl e, g)
    | inr x =>
        match frame_getitem (df g) (bo_projected_column mode s) with
        | inl e => (inl e, g)
        | inr y =>
            bo_graph_loop mode rest
              (traces ++ [mkBoTrace x y (replace ":Frequency" EmptyString s
                                           ++ " (" ++ mode ++ ")")])
              g
        end
    end.
Proof.
  cbn [bo_graph_loop]. unfold bind, getitem.
  destruct (frame_getitem (df g) "Timestamp"); [reflexivity|].
  destruct (frame_getitem (df g) (bo_projected_column mode s)); reflexivity.
Qed.

Lemma bo_graph_loop_state (mode : string) (stations : list string) :
  forall traces g, snd (bo_graph_loop mode stations traces g) = g.
Proof.
  induction stations as [|s rest IH]; intros traces g; [reflexivity|].
  rewrite bo_graph_loop_cons.
  destruct (frame_getitem (df g) "Timestamp"); [reflexivity|].
  destruct (frame_getitem (df g) (bo_projected_column mode s)); [reflexivity|].
  apply IH.
Qed.

Lemma bo_update_graph_unfold (stations : list string) (mode : string) (g : globals) :
  bo_update_graph stations mode g =
    match fst (bo_graph_loop mode stations [] g) with
    | inl e => (inl e, g)
    | inr traces => (inr (mkBoFigure traces (bo_yaxis_title mode)), g)
    end.
Proof.
  unfold bo_update_graph, bind, ret, bo_yaxis_title.
  pose proof (bo_graph_loop_state mode stations [] g) as Hs.
  destruct (bo_graph_loop mode stations [] g) as [[e|traces] g'];
    cbn in Hs |- *; now subst g'.
Qed.

Lemma same_projection (mode s : string) :
  mode = "Frequency" \/ mode = "Phase" ->
  bo_projected_column mode s = fst (projected_column mode s).
Proof. intros [->| ->]; reflexivity. Qed.

Lemma bo_graph_loop_as_main (mode : string) (g : globals) :
  mode = "Frequency" \/ mode = "Phase" ->
  forall stations i traces title,
    fst (bo_graph_loop mode stations (map to_bo traces) g)
    = match fst (graph_loop mode i stations traces title g) with
      | inl e => inl e
      | inr r => inr (map to_bo (fst r))
      end.
Proof.
  intros Hmode. induction stations as [|s rest IH]; intros i traces title.
  - reflexivity.
  - rewrite bo_graph_loop_cons, graph_loop_cons, (same_projection mode s Hmode).
    destruct (frame_getitem (df g) "Timestamp") as [e|x]; [reflexivity|].
    destruct (frame_getitem (df g) (fst (projected_column mode s))) as [e|y];
      [reflexivity|].
    rewrite <- (IH (S i) _ (Some (snd (projected_column mode s)))).
    now rewrite map_app.
Qed.

Lemma graph_loop_title_bound (mode : string) (g : globals) (stations : list string) :
  forall i traces t r,
    fst (graph_loop mode i stations traces (Some t) g) = inr r -> snd r <> None.
Proof.
  induction stations as [|s rest IH]; intros i traces t r E.
  - inversion E. discriminate.
  - rewrite graph_loop_cons in E.
    destruct (frame_getitem (df g) "Timestamp"); [discriminate|].
    destruct (frame_getitem (df g) (fst (projected_column mode s)));
      [discriminate|].
    eapply IH; eauto.
Qed.

(** X22: on a selection that is not empty, and in the two views they share,
    the callbacks of [BO_2025/main.py] and of [main.py] raise the same
    error or return the same traces (colour apart), in the same order. *)
Theorem entry_points_agree
    (g : globals) (stations : list string) (mode : string)
    (Hmode : mode = "Frequency" \/ mode = "Phase")
    (Hsome : stations <> []) :
  fst (bo_update_graph stations mode g)
  = match fst (update_graph stations mode g) with
    | inl e => inl e
    | inr fig => inr (mkBoFigure (map to_bo (fig_data fig)) (bo_yaxis_title mode))
    end.
Proof.
  rewrite bo_update_graph_unfold, update_graph_unfold.
  pose proof (bo_graph_loop_as_main mode g Hmode stations 0 [] None) as Hloop.
  cbn [map] in Hloop. rewrite Hloop.
  destruct (fst (graph_loop mode 0 stations [] None g)) as [e|[traces title]] eqn:E;
    [reflexivity|].
  destruct title as [title|]; [reflexivity|].
  exfalso. destruct stations as [|s rest]; [contradiction|].
  rewrite graph_loop_cons in E.
  destruct (frame_getitem (df g) "Timestamp") as [e|x] eqn:Ex; [discriminate|].
  destruct (frame_getitem (df g) (fst (projected_column mode s))) as [e|y] eqn:Ey;
    [discriminate|].
  apply graph_loop_title_bound in E. now apply E.
Qed.

Lemma entry_points_agree_witness :
  fst (bo_update_graph ["ES_Madrid:Frequency"] "Phase" sample_globals)
  = match fst (update_graph ["ES_Madrid:Frequency"] "Phase" sample_globals) with
    | inl e => inl e
    | inr fig => inr (mkBoFigure (map to_bo (fig_data fig)) "Phase Angle (rad)")
    end.
Proof.
  apply (entry_points_agree sample_globals ["ES_Madrid:Frequency"] "Phase").
  - right. reflexivity.
  - discriminate.
Defined.

(** X23: with nothing selected the two entry points differ: the callback of
    [main.py] raises [UnboundLocalError], its axis title being bound in
    the loop only, while the one of [BO_2025/main.py] returns a figure
    without traces.  A file without any station loads without error in
    both, and then the first rendering, on the selector's start value,
    is such a call. *)
Theorem nothing_selected
    (rocof : bool) (t : list (string * raw_column)) (g g' : globals) (mode : string)
    (Hrun : module_body rocof (Csv t) g = (inr tt, g'))
    (Hnone : filter (str_in "Frequency") (map fst t) = []) :
  dropdown_default g' = []
  /\ update_graph (dropdown_default g') mode g'
     = (inl (UnboundLocalError "yaxis_title"), g')
  /\ bo_update_graph (dropdown_default g') mode g'
     = (inr (mkBoFigure [] (bo_yaxis_title mode)), g').
Proof.
  destruct (module_body_success rocof t g g' Hrun) as [_ Hfc].
  unfold dropdown_default. rewrite Hfc, Hnone. cbn [firstn].
  split; [reflexivity|]. split; reflexivity.
Qed.

Lemma nothing_selected_witness :
  update_graph (dropdown_default (snd (main_py no_station_file fresh_globals)))
               mode_default (snd (main_py no_station_file fresh_globals))
  = (inl (UnboundLocalError "yaxis_title"),
     snd (main_py no_station_file fresh_globals)).
Proof.
  apply (nothing_selected
           true
           [("Timestamp", Instants [0; 1000000000]%Z);
            ("PT_Porto:Voltage", Numbers [Some 230.1; Some 229.8])]
           fresh_globals (snd (main_py no_station_file fresh_globals)) mode_default);
    reflexivity.
Defined.

(** X24: with at least one station, the first rendering (the selector's start
    value in the Frequency view) succeeds after a load without error: it
    shows the frequency columns of the first two stations of the file, or
    of the only one. *)
Theorem first_rendering
    (rocof : bool) (t : list (string * raw_column)) (g g' : globals)
    (Hrun : module_body rocof (Csv t) g = (inr tt, g'))
    (Hsome : filter (str_in "Frequency") (map fst t) <> []) :
  exists fig,
    fst (update_graph (dropdown_default g') mode_default g') = inr fig
    /\ List.length (fig_data fig)
       = Nat.min 2 (List.length (filter (str_in "Frequency") (map fst t)))
    /\ map (fun tr => Some (trace_y tr)) (fig_data fig)
       = map (fun c => get_col c (df g'))
             (firstn 2 (filter (str_in "Frequency") (map fst t))).
Proof.
  destruct (loaded_columns_present rocof t g g' Hrun) as [Hts Hcols].
  destruct (module_body_success rocof t g g' Hrun) as [_ Hfc].
  unfold dropdown_default. rewrite Hfc in *.
  set (fcols := filter (str_in "Frequency") (map fst t)) in *.
  destruct (get_col "Timestamp" (df g')) as [x|] eqn:Ex; [|congruence].
  destruct (graph_loop_success mode_default x g' Ex (firstn 2 fcols) 0 [] None)
    as (trs & title' & Hloop & Hys & _ & Hcons).
  { intros s Hs. apply Hcols.
    rewrite <- (firstn_skipn 2 fcols). apply in_or_app. now left. }
  rewrite update_graph_unfold, Hloop. cbn [app].
  destruct title' as [title|].
  - eexists. split; [reflexivity|]. cbn [fig_data]. split; [|exact Hys].
    apply (f_equal (@List.length _)) in Hys.
    rewrite !length_map, length_firstn in Hys. exact Hys.
  - exfalso. apply Hcons; [|reflexivity]. destruct fcols; [contradiction|discriminate].
Qed.

Lemma first_rendering_witness :
  exists fig,
    fst (update_graph (dropdown_default sample_globals) mode_default sample_globals)
    = inr fig
    /\ List.length (fig_data fig) = 2%nat.
Proof.
  destruct (first_rendering
              true
              [("Timestamp", Instants [0; 1000000000; 2000000000]%Z);
               ("DE_Ostrhauderfehn:Frequency",
                Numbers [Some 50.00; Some 50.10; Some 49.90]);
               ("ES_Madrid:Frequency", Numbers [None; Some 50.10; None])]
              fresh_globals sample_globals eq_refl) as (fig & Hrun & Hlen & _).
  - discriminate.
  - exists fig. split; [exact Hrun|exact Hlen].
Defined.
